(** * Verification of the MusicXML player's synchronization engine

    Shallow embedding of [src/Player.ts] (timemap index, playback clock,
    synchronization tick, external-clock adapter, output router) and of
    the built-in synthesizer sink ([SoundFontOutput]).

    Number model.  Timestamps are JavaScript numbers.  They are modelled
    as exact rationals [Q]: the engine only adds, subtracts, compares and
    takes [max] and [abs] of them.  Rounding of IEEE doubles is outside
    the model.  Measure indices are modelled as integers [Z]. *)

From Stdlib Require Import ZArith QArith Qabs Qminmax Lqa Lia List Bool.
From stdpp Require Import base option list strings gmap.

Local Open Scope Z_scope.

(** ** Shared types *)

Abbreviation MeasureIndex := Z (only parsing).
Abbreviation MillisecsTimestamp := Q (only parsing).

(** One entry of [IMidiConverter.timemap]: a visit of [measure] at
    [timestamp].  The sequence is ordered by timestamp and the same
    measure may be visited several times. *)
Record MeasureTimemapEntry := {
  measure : MeasureIndex;
  timestamp : MillisecsTimestamp
}.

#[global] Instance MeasureTimemapEntry_inhabited : Inhabited MeasureTimemapEntry :=
  populate {| measure := 0; timestamp := 0%Q |}.

(** The value type of [Player._timemap]. *)
Record MeasureRecord := {
  start : MillisecsTimestamp;
  duration : MillisecsTimestamp
}.

(** ** The timemap index ([Player] constructor, "Build a specialized
    timemap for faster lookup") *)

Module Timemap.

(** [Array.prototype.forEach] with its [(element, index)] callback,
    threading the object the callback mutates. *)
Fixpoint forEach {A St : Type} (f : St -> A -> nat -> St) (i : nat)
    (l : list A) (acc : St) : St :=
  match l with
  | [] => acc
  | x :: l' => forEach f (S i) l' (f acc x i)
  end.

(** The object literal stored for [entry] at position [i] of [timemap]. *)
Definition record_of (timemap : list MeasureTimemapEntry)
    (entry : MeasureTimemapEntry) (i : nat) : MeasureRecord :=
  {| start := timestamp entry;
     duration :=
       if Z.of_nat i <? Z.of_nat (length timemap) - 1
       then (timestamp (timemap !!! S i) - timestamp entry)%Q
       else 0%Q |}.

(** The body of the [forEach] callback: the record is written only when
    [this._timemap[entry.measure]] is still undefined. *)
Definition callback (timemap : list MeasureTimemapEntry)
    (_timemap : gmap MeasureIndex MeasureRecord)
    (entry : MeasureTimemapEntry) (i : nat) : gmap MeasureIndex MeasureRecord :=
  match _timemap !! measure entry with
  | None => <[measure entry := record_of timemap entry i]> _timemap
  | Some _ => _timemap
  end.

Definition build (timemap : list MeasureTimemapEntry)
    : gmap MeasureIndex MeasureRecord :=
  forEach (callback timemap) 0 timemap ∅.

(** Specification side: the record of the first entry of [l] that visits
    measure [m], where [l] starts at position [i] of [timemap]. *)
Fixpoint first_record (timemap : list MeasureTimemapEntry) (m : MeasureIndex)
    (i : nat) (l : list MeasureTimemapEntry) : option MeasureRecord :=
  match l with
  | [] => None
  | e :: l' =>
      if decide (measure e = m) then Some (record_of timemap e i)
      else first_record timemap m (S i) l'
  end.

End Timemap.

(** ** Collaborators of the player *)

(** The [PlayerState] enumeration of the [midi-player] package. *)
Inductive PlayerState := Stopped | Playing | Paused.

#[global] Instance PlayerState_eq_dec : EqDecision PlayerState.
Proof. solve_decision. Defined.

(** [===] on playback states. *)
Definition PlayerState_eqb (a b : PlayerState) : bool :=
  match a, b with
  | Stopped, Stopped | Playing, Playing | Paused, Paused => true
  | _, _ => false
  end.

(** Modelled from the spec: the underlying event-stream player is the
    external package [midi-player], which is not among the sources.
    The player only reads its [state] and commands it; the commands are
    modelled by what sections 4.2 and 3 say of them: [play] and [resume]
    start or resume playback, [pause] pauses it, [stop] stops it and
    [seek] positions the stream without changing the playback state.  A
    freshly created player is stopped.  [position] is the position last
    requested through [seek]. *)
Module MidiPlayer.

Record t := {
  state : PlayerState;
  position : MillisecsTimestamp
}.

Definition create : t := {| state := Stopped; position := 0%Q |}.

Definition seek (timestamp : MillisecsTimestamp) (mp : t) : t :=
  {| state := state mp; position := timestamp |}.

Definition play (mp : t) : t :=
  {| state := Playing; position := position mp |}.

Definition resume (mp : t) : t :=
  {| state := Playing; position := position mp |}.

Definition pause (mp : t) : t :=
  {| state := Paused; position := position mp |}.

Definition stop (mp : t) : t :=
  {| state := Stopped; position := position mp |}.

End MidiPlayer.

(** The sheet renderer ([ISheetRenderer]) is an interface; what the
    player does to it is call [moveTo].  The model keeps the arguments of
    the last call: the position of the cursor, which is the playback
    position an observer of the player can read.  The synchronization
    tick passes the measure duration as a fourth argument, [moveTo] and
    [rewind] pass three. *)
Record Cursor := {
  cursorIndex : MeasureIndex;
  cursorStart : MillisecsTimestamp;
  cursorOffset : MillisecsTimestamp;
  cursorDuration : option MillisecsTimestamp
}.

(** A message handed to the output sink: the bytes and the optional
    timestamp of [IMidiOutput.send]. *)
Definition MidiMessage : Type := list Z * option MillisecsTimestamp.

(** The vector returned by [ITimingObject.query]. *)
Module TimingObject.

Record Vector := {
  position : Q;
  velocity : Q
}.

End TimingObject.

(** What [parseMidiEvent] returns, as far as the player looks at it: the
    router only tests whether the parsed event has a [channel] property. *)
Record IMidiEvent := {
  channel : option Z
}.

(** ** The player *)

Module Player.

Record t := {
  _midiPlayer : MidiPlayer.t;
  _playbackStart : MillisecsTimestamp;
  _playbackPause : MillisecsTimestamp;
  _measureIndex : MeasureIndex;
  _measureStart : MillisecsTimestamp;
  _measureOffset : MillisecsTimestamp;
  _timemap : gmap MeasureIndex MeasureRecord;
  mute : bool;
  (** [this._converter.timemap], the raw sequence *)
  _converter_timemap : list MeasureTimemapEntry;
  (** the renderer's cursor, see [Cursor] *)
  _renderer : Cursor;
  (** the messages the output sink has received, oldest first *)
  _output : list MidiMessage
}.

(** Field updates. *)
Definition set_midiPlayer (f : MidiPlayer.t -> MidiPlayer.t) (p : t) : t :=
  {| _midiPlayer := f (_midiPlayer p); _playbackStart := _playbackStart p;
     _playbackPause := _playbackPause p; _measureIndex := _measureIndex p;
     _measureStart := _measureStart p; _measureOffset := _measureOffset p;
     _timemap := _timemap p; mute := mute p;
     _converter_timemap := _converter_timemap p; _renderer := _renderer p;
     _output := _output p |}.

Definition set_playbackStart (v : MillisecsTimestamp) (p : t) : t :=
  {| _midiPlayer := _midiPlayer p; _playbackStart := v;
     _playbackPause := _playbackPause p; _measureIndex := _measureIndex p;
     _measureStart := _measureStart p; _measureOffset := _measureOffset p;
     _timemap := _timemap p; mute := mute p;
     _converter_timemap := _converter_timemap p; _renderer := _renderer p;
     _output := _output p |}.

Definition set_playbackPause (v : MillisecsTimestamp) (p : t) : t :=
  {| _midiPlayer := _midiPlayer p; _playbackStart := _playbackStart p;
     _playbackPause := v; _measureIndex := _measureIndex p;
     _measureStart := _measureStart p; _measureOffset := _measureOffset p;
     _timemap := _timemap p; mute := mute p;
     _converter_timemap := _converter_timemap p; _renderer := _renderer p;
     _output := _output p |}.

Definition set_measureIndex (v : MeasureIndex) (p : t) : t :=
  {| _midiPlayer := _midiPlayer p; _playbackStart := _playbackStart p;
     _playbackPause := _playbackPause p; _measureIndex := v;
     _measureStart := _measureStart p; _measureOffset := _measureOffset p;
     _timemap := _timemap p; mute := mute p;
     _converter_timemap := _converter_timemap p; _renderer := _renderer p;
     _output := _output p |}.

Definition set_measureStart (v : MillisecsTimestamp) (p : t) : t :=
  {| _midiPlayer := _midiPlayer p; _playbackStart := _playbackStart p;
     _playbackPause := _playbackPause p; _measureIndex := _measureIndex p;
     _measureStart := v; _measureOffset := _measureOffset p;
     _timemap := _timemap p; mute := mute p;
     _converter_timemap := _converter_timemap p; _renderer := _renderer p;
     _output := _output p |}.

Definition set_measureOffset (v : MillisecsTimestamp) (p : t) : t :=
  {| _midiPlayer := _midiPlayer p; _playbackStart := _playbackStart p;
     _playbackPause := _playbackPause p; _measureIndex := _measureIndex p;
     _measureStart := _measureStart p; _measureOffset := v;
     _timemap := _timemap p; mute := mute p;
     _converter_timemap := _converter_timemap p; _renderer := _renderer p;
     _output := _output p |}.

Definition set_mute (v : bool) (p : t) : t :=
  {| _midiPlayer := _midiPlayer p; _playbackStart := _playbackStart p;
     _playbackPause := _playbackPause p; _measureIndex := _measureIndex p;
     _measureStart := _measureStart p; _measureOffset := _measureOffset p;
     _timemap := _timemap p; mute := v;
     _converter_timemap := _converter_timemap p; _renderer := _renderer p;
     _output := _output p |}.

(** [this._renderer.moveTo(...)]. *)
Definition renderer_moveTo (measureIndex : MeasureIndex)
    (measureStart measureOffset : MillisecsTimestamp)
    (measureDuration : option MillisecsTimestamp) (p : t) : t :=
  {| _midiPlayer := _midiPlayer p; _playbackStart := _playbackStart p;
     _playbackPause := _playbackPause p; _measureIndex := _measureIndex p;
     _measureStart := _measureStart p; _measureOffset := _measureOffset p;
     _timemap := _timemap p; mute := mute p;
     _converter_timemap := _converter_timemap p;
     _renderer := {| cursorIndex := measureIndex; cursorStart := measureStart;
                     cursorOffset := measureOffset;
                     cursorDuration := measureDuration |};
     _output := _output p |}.

(** [this._output.send(data, timestamp)]. *)
Definition output_send (data : list Z) (timestamp : option MillisecsTimestamp)
    (p : t) : t :=
  {| _midiPlayer := _midiPlayer p; _playbackStart := _playbackStart p;
     _playbackPause := _playbackPause p; _measureIndex := _measureIndex p;
     _measureStart := _measureStart p; _measureOffset := _measureOffset p;
     _timemap := _timemap p; mute := mute p;
     _converter_timemap := _converter_timemap p; _renderer := _renderer p;
     _output := _output p ++ [(data, timestamp)] |}.

(** The getter [get state()]. *)
Definition state (p : t) : PlayerState := MidiPlayer.state (_midiPlayer p).

(** The playback position an observer reads: the cursor of the renderer. *)
Definition position (p : t) : MeasureIndex * MillisecsTimestamp * MillisecsTimestamp :=
  (cursorIndex (_renderer p), cursorStart (_renderer p), cursorOffset (_renderer p)).

(** How a method body ends: normally, or by a thrown [TypeError] (a
    property read on [undefined]).  Both carry the state the fields are
    left in. *)
Inductive Completion :=
  | Normal (p : t)
  | Throw (p : t).

(** *** Construction *)

(** The private constructor.  [timemap] is [this._converter.timemap].
    The renderer's cursor starts at measure 0, offset 0, where
    [renderer.initialize] puts it. *)
Definition constructor (timemap : list MeasureTimemapEntry) : t :=
  {| _midiPlayer := MidiPlayer.create;
     _playbackStart := 0%Q;
     _playbackPause := 0%Q;
     _measureIndex := 0;
     _measureStart := 0%Q;
     _measureOffset := 0%Q;
     _timemap := Timemap.build timemap;
     mute := false;
     _converter_timemap := timemap;
     _renderer := {| cursorIndex := 0; cursorStart := 0%Q;
                     cursorOffset := 0%Q; cursorDuration := None |};
     _output := [] |}.

(** The part of [PlayerOptions] and of the environment that [load]
    depends on.  [containerFound] says whether the container element
    exists; [collaboratorsFail] says whether one of the awaited
    collaborator calls ([parseMusicXML], [converter.initialize],
    [renderer.initialize]) throws, in which case [load] re-throws. *)
Record PlayerOptions := {
  containerFound : bool;
  collaboratorsFail : bool;
  converterTimemap : list MeasureTimemapEntry;
  optionsMute : option bool
}.

Inductive LoadError :=
  | FailedToFindContainer
  | Rethrown.

(** [Player.load]. *)
Definition load (options : PlayerOptions) : LoadError + t :=
  if negb (containerFound options) then inl FailedToFindContainer
  else if collaboratorsFail options then inl Rethrown
  else
    let player := constructor (converterTimemap options) in
    inr (set_mute (default false (optionsMute options)) player).

(** *** Transport *)

(** [moveTo(measureIndex, measureStart, measureOffset)], called at
    [performance.now() = now].  Reading [.start] of a missing record
    throws before any field is written. *)
Definition moveTo (measureIndex : MeasureIndex)
    (measureStart measureOffset : MillisecsTimestamp)
    (now : MillisecsTimestamp) (p : t) : Completion :=
  match _timemap p !! measureIndex with
  | None => Throw p
  | Some record =>
      let timestamp := (start record + measureOffset)%Q in
      let p := set_midiPlayer (MidiPlayer.seek timestamp) p in
      let p := set_measureIndex measureIndex p in
      let p := set_measureStart (now - measureOffset)%Q p in
      let p := set_playbackStart (now - timestamp)%Q p in
      let p := set_playbackPause now p in
      Normal (renderer_moveTo measureIndex measureStart measureOffset None p)
  end.

(** The two branches of [_play]. *)
Inductive PlayBranch := Resume | FreshStart.

(** The test [state === Paused || this._playbackStart !== 0]. *)
Definition play_branch (p : t) : PlayBranch :=
  if PlayerState_eqb (state p) Paused || negb (Qeq_bool (_playbackStart p) 0)
  then Resume else FreshStart.

(** [_play], up to and including the call that activates the MIDI
    player.  The tick it schedules is [synchronizeMidi] below, and what
    runs after the awaited promise settles is [_play_settled]. *)
Definition _play (now : MillisecsTimestamp) (p : t) : t :=
  let p :=
    match play_branch p with
    | Resume =>
        let p' := set_playbackStart
                    (_playbackStart p + (now - _playbackPause p))%Q p in
        set_measureStart (_measureStart p' + (now - _playbackPause p'))%Q p'
    | FreshStart =>
        let p := set_playbackStart now p in
        let p := set_measureIndex 0 p in
        set_measureStart now p
    end in
  if PlayerState_eqb (state p) Paused
  then set_midiPlayer MidiPlayer.resume p
  else set_midiPlayer MidiPlayer.play p.

(** "Reset when done": the rest of [_play], after the [await]. *)
Definition _play_settled (p : t) : t :=
  if negb (PlayerState_eqb (state p) Paused) then set_playbackStart 0%Q p else p.

Definition play (now : MillisecsTimestamp) (p : t) : t :=
  if PlayerState_eqb (state p) Playing then p else _play now p.

Definition pause (now : MillisecsTimestamp) (p : t) : t :=
  if negb (PlayerState_eqb (state p) Playing) then p
  else
    let p := set_midiPlayer MidiPlayer.pause p in
    set_playbackPause now p.

Definition rewind (p : t) : t :=
  let p := set_midiPlayer MidiPlayer.stop p in
  let p := set_playbackStart 0%Q p in
  renderer_moveTo 0 0%Q 0%Q None p.

End Player.

(** ** The synchronization tick *)

Module Helpers.

(** Modelled from the spec: [binarySearch] lives in [src/helpers], which is
    not among the available sources.  Section 4.3 and the third testable
    property describe it: a binary search driven by a comparator, which
    returns the index of a match, and otherwise the insertion point in
    complement encoding, [-(insertion point) - 1], so that
    [-index - 2] is the floor entry and [-1] stands for "before the
    first entry".  [fuel] bounds the iterations of the [while] loop; the
    search never uses it up ([BinarySearchFacts.binarySearch_loop_fuel]). *)
Fixpoint binarySearch_loop {T : Type} (arr : list T) (el : T)
    (comparator : T -> T -> Q) (fuel : nat) (m n : Z) : Z :=
  match fuel with
  | O => - m - 1
  | S fuel' =>
      if m <=? n then
        let k := Z.shiftr (n + m) 1 in
        match arr !! Z.to_nat k with
        | None => - m - 1 (* not reached: 0 <= m <= k <= n < length *)
        | Some x =>
            let cmp := comparator el x in
            if Qlt_le_dec 0 cmp then binarySearch_loop arr el comparator fuel' (k + 1) n
            else if Qlt_le_dec cmp 0 then binarySearch_loop arr el comparator fuel' m (k - 1)
            else k
        end
      else - m - 1
  end.

Definition binarySearch {T : Type} (arr : list T) (el : T)
    (comparator : T -> T -> Q) : Z :=
  binarySearch_loop arr el comparator (S (length arr)) 0 (Z.of_nat (length arr) - 1).

(** Specification side of [binarySearch].  The query lies after [x]
    when the comparator is positive, before [x] when it is negative. *)
Definition query_after {T : Type} (comparator : T -> T -> Q) (el x : T) : Prop :=
  (0 < comparator el x)%Q.

Definition query_before {T : Type} (comparator : T -> T -> Q) (el x : T) : Prop :=
  (comparator el x < 0)%Q.

(** What the search may return: the index of an element that compares
    equal, or the encoding of an insertion point [ip], with the query
    after every element before [ip] and before every element from [ip]
    on. *)
Definition search_result {T : Type} (arr : list T) (el : T)
    (comparator : T -> T -> Q) (r : Z) : Prop :=
  (0 <= r /\
   exists x, arr !! Z.to_nat r = Some x /\
             ~ query_after comparator el x /\ ~ query_before comparator el x) \/
  (r < 0 /\
   let ip := - r - 1 in
   0 <= ip <= Z.of_nat (length arr) /\
   (forall j x, Z.of_nat j < ip -> arr !! j = Some x -> query_after comparator el x) /\
   (forall j x, ip <= Z.of_nat j -> arr !! j = Some x -> query_before comparator el x)).

End Helpers.

Module Sync.
Import Player.

(** [Number.EPSILON], 2^-52. *)
Definition EPSILON : Q := 1 # 4503599627370496.

(** The comparator handed to [binarySearch]. *)
Definition comparator (a b : MeasureTimemapEntry) : Q :=
  let d := (timestamp a - timestamp b)%Q in
  if Qlt_le_dec (Qabs d) EPSILON then 0%Q else d.

(** Ascending order of the timestamps, as the converter delivers the
    timemap. *)
Definition sorted_by_timestamp (raw : list MeasureTimemapEntry) : Prop :=
  forall j k x y, (j <= k)%nat -> raw !! j = Some x -> raw !! k = Some y ->
    (timestamp x <= timestamp y)%Q.

(** The subscript [index >= 0 ? index : Math.max(0, -index - 2)]. *)
Definition floor_index (index : Z) : Z :=
  if index >=? 0 then index else Z.max 0 (- index - 2).

(** [synchronizeMidi(now)], one frame of the loop.  Rescheduling through
    [requestAnimationFrame] is the next call of this function. *)
Definition synchronizeMidi (now : MillisecsTimestamp) (p : t) : Completion :=
  if negb (PlayerState_eqb (state p) Playing) then Normal p
  else
    let index :=
      Helpers.binarySearch (_converter_timemap p)
        {| measure := 0; timestamp := (now - _playbackStart p)%Q |}
        comparator in
    match _converter_timemap p !! Z.to_nat (floor_index index) with
    | None => Throw p
    | Some entry =>
        let p :=
          if negb (_measureIndex p =? measure entry)
          then set_measureStart now (set_measureIndex (measure entry) p)
          else p in
        let p := set_measureOffset (Qmax 0 (now - _measureStart p)) p in
        match _timemap p !! _measureIndex p with
        | None => Throw p
        | Some record =>
            Normal (renderer_moveTo (_measureIndex p) (start record)
                      (_measureOffset p) (Some (duration record)) p)
        end
    end.

End Sync.

(** ** The external-clock adapter *)

Module Timingsrc.
Import Player.

(** [_handleTimingsrcChange].  [vector] is the result of
    [this._timingsrc?.query()], [None] when no clock is attached (the
    optional chain then yields [undefined], which is not [=== 0]). *)
Definition _handleTimingsrcChange (vector : option TimingObject.Vector)
    (now : MillisecsTimestamp) (p : t) : t :=
  match vector with
  | Some v =>
      if Qeq_bool (TimingObject.velocity v) 0 then
        if Qeq_bool (TimingObject.position v) 0 then rewind p
        else pause now p
      else play now p
  | None => play now p
  end.

End Timingsrc.

(** ** The output router *)

Module Router.
Import Player.

Section WithParser.

(** [parseMidiEvent] lives in [src/helpers], which is not among the
    available sources; the router is stated for any parser. *)
Variable parseMidiEvent : list Z -> IMidiEvent.

(** [send(data, timestamp)]. *)
Definition send (data : list Z) (timestamp : option MillisecsTimestamp)
    (p : t) : t :=
  if mute p then p
  else
    let event := parseMidiEvent data in
    match channel event with
    | Some _ => output_send data timestamp p
    | None => p
    end.

End WithParser.

(** Modelled from the spec: a parser that classifies a message by its
    leading status byte, as section 4.5 describes [parseMidiEvent]:
    channel messages (note off 0x8n up to pitch bend 0xEn) carry the
    channel of the low nibble; system and meta messages (0xF0 and above)
    and bytes that are no status byte carry none. *)
Definition parseMidiEvent_by_status (data : list Z) : IMidiEvent :=
  match data with
  | status :: _ =>
      if (128 <=? status) && (status <? 240)
      then {| channel := Some (Z.land status 15) |}
      else {| channel := None |}
  | [] => {| channel := None |}
  end.

End Router.

(** ** The built-in synthesizer sink ([SoundFontOutput]) *)

Module SoundFontOutput.

Definition MIDI_CHANNEL_DRUMS : Z := 9.

(** What [player.queueWaveTable] is called with; the envelope it returns
    is identified with the call. *)
Record Envelope := {
  wavetable : string;
  when : Q;
  envelopePitch : Z;
  envelopeDuration : Q;
  volume : Q
}.

Record TNote := {
  channel : Z;
  pitch : Z;
  velocity : Z;
  on : MillisecsTimestamp;
  off : option MillisecsTimestamp;
  envelope : Envelope
}.

(** An entry of [TChannelMap], reduced to the [variable] names that
    [noteOn] reads: the instrument's, and per drum pitch the beat's. *)
Record ChannelInfo := {
  instrumentInfo : option string;
  beats : option (gmap Z string)
}.

Record t := {
  notes : list TNote;
  channels : gmap Z ChannelInfo;
  (** envelopes cancelled so far, oldest first *)
  cancelled : list Envelope
}.

Inductive Completion :=
  | Normal (s : t)
  | Throw (s : t).

Definition set_notes (v : list TNote) (s : t) : t :=
  {| notes := v; channels := channels s; cancelled := cancelled s |}.

Definition set_off (timestamp : MillisecsTimestamp) (note : TNote) : TNote :=
  {| channel := channel note; pitch := pitch note; velocity := velocity note;
     on := on note; off := Some timestamp; envelope := envelope note |}.

(** The predicate of [this.notes.find] in [noteOff].  [pitch] is [None]
    when [data[1]] is undefined, which is [===] to no number. *)
Definition is_active_note (channel' : Z) (pitch' : option Z) (note : TNote) : Prop :=
  Some (pitch note) = pitch' /\ channel note = channel' /\ off note = None.

#[global] Instance is_active_note_dec c p note : Decision (is_active_note c p note).
Proof. unfold is_active_note. apply _. Defined.

(** [noteOff]: the first active note of that pitch and channel, if any,
    gets its [off] time. *)
Definition noteOff (channel' : Z) (pitch' : option Z)
    (timestamp : MillisecsTimestamp) (s : t) : t :=
  match list_find (is_active_note channel' pitch') (notes s) with
  | Some (i, note) => set_notes (<[i := set_off timestamp note]> (notes s)) s
  | None => s
  end.

(** [noteOn], with the two clocks it reads: [currentTime] is
    [audioContext.currentTime] and [now] is [performance.now()].  The
    instrument lookup throws when the channel or the beat was not
    loaded. *)
Definition noteOn (currentTime now : Q) (channel' pitch' : Z)
    (timestamp : MillisecsTimestamp) (velocity' : Z) (s : t) : Completion :=
  let instrument :=
    if channel' =? MIDI_CHANNEL_DRUMS
    then info ← channels s !! channel'; b ← beats info; b !! pitch'
    else info ← channels s !! channel'; instrumentInfo info in
  match instrument with
  | None => Throw s
  | Some variable =>
      let when' := (currentTime + (timestamp - now) / 1000)%Q in
      Normal (set_notes
        (notes s ++
          [{| channel := channel'; pitch := pitch'; velocity := velocity';
              on := timestamp; off := None;
              envelope := {| wavetable := variable; when := when';
                             envelopePitch := pitch';
                             envelopeDuration := 100000;
                             volume := inject_Z velocity' / 127 |} |}]) s)
  end.

(** The [switch] of [send] on the first three bytes of [data].  A missing
    byte reads as [undefined]: it is 0 under [&] and [>>], and it is not
    [> 0]. *)
Definition dispatch (currentTime now : Q) (data : list Z)
    (timestamp : MillisecsTimestamp) (s : t) : Completion :=
  let channel' := Z.land (default 0 (data !! 0%nat)) 15 in
  let type := Z.shiftr (default 0 (data !! 0%nat)) 4 in
  let pitch' := data !! 1%nat in
  let velocity' := data !! 2%nat in
  if type =? 9 then
    match pitch', velocity' with
    | Some pitch', Some velocity' =>
        if 0 <? velocity'
        then noteOn currentTime now channel' pitch' timestamp velocity' s
        else Normal (noteOff channel' (Some pitch') timestamp s)
    | _, _ => Normal (noteOff channel' pitch' timestamp s)
    end
  else if type =? 8 then Normal (noteOff channel' pitch' timestamp s)
  else Normal s.

(** [send]: the first three bytes are dispatched, and if more than three
    bytes were given the method calls itself on [data.slice(3)]. *)
Fixpoint send (currentTime now : Q) (data : list Z)
    (timestamp : MillisecsTimestamp) (s : t) {struct data} : Completion :=
  match dispatch currentTime now data timestamp s with
  | Throw s' => Throw s'
  | Normal s' =>
      match data with
      | _ :: _ :: _ :: ((_ :: _) as rest) => send currentTime now rest timestamp s'
      | _ => Normal s'
      end
  end.

(** [scheduleNotes], one run at [performance.now() = now]: the notes
    whose [off] time has come are cancelled and dropped. *)
Definition is_due (now : Q) (note : TNote) : bool :=
  match off note with
  | Some t' => if Qlt_le_dec now t' then false else true
  | None => false
  end.

Definition scheduleNotes (now : Q) (s : t) : t :=
  {| notes := List.filter (fun note => negb (is_due now note)) (notes s);
     channels := channels s;
     cancelled := cancelled s ++ List.map envelope (List.filter (is_due now) (notes s)) |}.

End SoundFontOutput.

(** ** The engine as a transition system *)

Module Engine.
Import Player.

(** What can happen to a loaded player: the calls of its public
    interface, a display frame, the end of the MIDI stream, and a change
    notification of the external clock.  ([send] and the [mute] flag only
    touch [_output] and [mute], which no transport operation reads; they
    are left out.) *)
Inductive Event :=
  | MoveTo (measureIndex : MeasureIndex)
           (measureStart measureOffset : MillisecsTimestamp)
  | Play
  | Pause
  | Rewind
  | Frame
  | PlaybackEnded
  | TimingsrcChange (vector : option TimingObject.Vector).

(** The fields as a method leaves them, however it completes. *)
Definition fields (c : Completion) : t :=
  match c with
  | Normal p => p
  | Throw p => p
  end.

(** The MIDI player reaches the end of the stream while playing: it
    stops, the promise awaited in [_play] settles and the rest of
    [_play] runs. *)
Definition playbackEnded (p : t) : t :=
  if PlayerState_eqb (state p) Playing
  then _play_settled (set_midiPlayer MidiPlayer.stop p)
  else p.

(** One event, taking place at [performance.now() = now]. *)
Definition step (now : MillisecsTimestamp) (ev : Event) (p : t) : t :=
  match ev with
  | MoveTo i s o => fields (moveTo i s o now p)
  | Play => play now p
  | Pause => pause now p
  | Rewind => rewind p
  | Frame => fields (Sync.synchronizeMidi now p)
  | PlaybackEnded => playbackEnded p
  | TimingsrcChange vector => Timingsrc._handleTimingsrcChange vector now p
  end.

(** A run: timed events, oldest first. *)
Fixpoint run (events : list (MillisecsTimestamp * Event)) (p : t) : t :=
  match events with
  | [] => p
  | (now, ev) :: events' => run events' (step now ev p)
  end.

(** The clock never runs backwards. *)
Fixpoint chronological (since : MillisecsTimestamp)
    (events : list (MillisecsTimestamp * Event)) : Prop :=
  match events with
  | [] => True
  | (now, _) :: events' => (since <= now)%Q /\ chronological now events'
  end.

(** The states a player loaded with [timemap] can be in. *)
Definition reachable (timemap : list MeasureTimemapEntry) (p : t) : Prop :=
  exists events, chronological 0%Q events /\ run events (constructor timemap) = p.

(** What an observer of the engine sees: the playback state, the cursor
    of the renderer, the stream position asked of the MIDI player, and
    what the sink received. *)
Definition observe (p : t)
    : PlayerState * Cursor * MillisecsTimestamp * list MidiMessage :=
  (state p, _renderer p, MidiPlayer.position (_midiPlayer p), _output p).

(** The never-started condition of section 3: stopped, with the global
    anchor at its zero sentinel. *)
Definition never_started (p : t) : Prop :=
  state p = Stopped /\ _playbackStart p = 0%Q.

(** Two players are equivalent when they agree on every field that can
    still be read before it is written again:
    - [_measureOffset] is written by each tick before it is read;
    - [_measureIndex] and [_measureStart] are overwritten by the next
      [play] or [moveTo] when the player is stopped at the zero sentinel;
    - [_playbackPause] is read by [_play] only on its resume branch,
      which is taken from the paused state or from a stopped state off
      the sentinel. *)
Definition equiv (p q : t) : Prop :=
  _midiPlayer p = _midiPlayer q /\
  _playbackStart p = _playbackStart q /\
  _timemap p = _timemap q /\
  mute p = mute q /\
  _converter_timemap p = _converter_timemap q /\
  _renderer p = _renderer q /\
  _output p = _output q /\
  (play_branch p = Resume \/ state p = Playing ->
     _measureIndex p = _measureIndex q /\ _measureStart p = _measureStart q) /\
  (play_branch p = Resume /\ state p <> Playing ->
     _playbackPause p = _playbackPause q).

(** The player as the constructor leaves its own fields, around the
    collaborators of [p] once the MIDI player is stopped and the cursor
    is back at the first measure. *)
Definition as_never_started (p : t) : t :=
  {| _midiPlayer := MidiPlayer.stop (_midiPlayer p);
     _playbackStart := 0%Q;
     _playbackPause := 0%Q;
     _measureIndex := 0;
     _measureStart := 0%Q;
     _measureOffset := 0%Q;
     _timemap := _timemap p;
     mute := mute p;
     _converter_timemap := _converter_timemap p;
     _renderer := {| cursorIndex := 0; cursorStart := 0%Q;
                     cursorOffset := 0%Q; cursorDuration := None |};
     _output := _output p |}.

End Engine.

(** The repeat scenario of the specification: measure 0 is visited again
    at 900 ms. *)
Definition repeat_timemap : list MeasureTimemapEntry :=
  [ {| measure := 0; timestamp := 0%Q |};
    {| measure := 1; timestamp := 500%Q |};
    {| measure := 0; timestamp := 900%Q |};
    {| measure := 2; timestamp := 1400%Q |} ].

(** Options with an empty timemap, a container and no failing
    collaborator. *)
Definition empty_options : Player.PlayerOptions :=
  {| Player.containerFound := true;
     Player.collaboratorsFail := false;
     Player.converterTimemap := [];
     Player.optionsMute := None |}.


(** A sink with one sounding note: channel 0, pitch 60. *)
Definition one_note : SoundFontOutput.t :=
  {| SoundFontOutput.notes :=
       [ {| SoundFontOutput.channel := 0; SoundFontOutput.pitch := 60;
            SoundFontOutput.velocity := 100; SoundFontOutput.on := 0%Q;
            SoundFontOutput.off := None;
            SoundFontOutput.envelope :=
              {| SoundFontOutput.wavetable := "_tone_0000_Piano";
                 SoundFontOutput.when := 0%Q;
                 SoundFontOutput.envelopePitch := 60;
                 SoundFontOutput.envelopeDuration := 100000%Q;
                 SoundFontOutput.volume := (100 # 127)%Q |} |} ];
     SoundFontOutput.channels := ∅;
     SoundFontOutput.cancelled := [] |}.

(** ** Lemmas on the timemap index *)

Module TimemapFacts.
Import Timemap.

Lemma callback_lookup timemap acc e i m :
  callback timemap acc e i !! m =
  match acc !! m with
  | Some r => Some r
  | None => if decide (measure e = m) then Some (record_of timemap e i) else None
  end.
Proof.
  unfold callback.
  destruct (decide (measure e = m)) as [->|Hne].
  - destruct (acc !! m) eqn:Hm; [exact Hm|]. apply lookup_insert_eq.
  - destruct (acc !! measure e) eqn:He.
    + destruct (acc !! m); reflexivity.
    + rewrite lookup_insert_ne by exact Hne. destruct (acc !! m); reflexivity.
Qed.

Lemma forEach_lookup timemap l : forall i acc m,
  forEach (callback timemap) i l acc !! m =
  match acc !! m with
  | Some r => Some r
  | None => first_record timemap m i l
  end.
Proof.
  induction l as [|e l IH]; intros i acc m; simpl.
  - destruct (acc !! m); reflexivity.
  - rewrite IH, callback_lookup.
    destruct (acc !! m); [reflexivity|].
    destruct (decide (measure e = m)); reflexivity.
Qed.

Lemma build_lookup timemap m :
  build timemap !! m = first_record timemap m 0 timemap.
Proof. unfold build. rewrite forEach_lookup, lookup_empty. reflexivity. Qed.

Lemma first_record_at timemap m l : forall i k e,
  l !! k = Some e -> measure e = m ->
  (forall j e', (j < k)%nat -> l !! j = Some e' -> measure e' <> m) ->
  first_record timemap m i l = Some (record_of timemap e (i + k)).
Proof.
  induction l as [|x l IH]; intros i k e Hk Hm Hfirst; [discriminate|].
  destruct k as [|k]; simpl in *.
  - injection Hk as ->. rewrite decide_True by exact Hm.
    rewrite Nat.add_0_r. reflexivity.
  - rewrite decide_False by (apply (Hfirst 0%nat); [lia|reflexivity]).
    rewrite (IH (S i) k e Hk Hm).
    + do 2 f_equal. lia.
    + intros j e' Hj He'. apply (Hfirst (S j)); [lia|exact He'].
Qed.

Lemma first_record_None timemap m l : forall i,
  first_record timemap m i l = None <-> (forall e, e ∈ l -> measure e <> m).
Proof.
  induction l as [|x l IH]; intros i; simpl.
  - split; [|reflexivity]. intros _ e He. inversion He.
  - destruct (decide (measure x = m)) as [Hx|Hx].
    + split; [discriminate|]. intros H. exfalso. apply (H x); [left|exact Hx].
    + rewrite IH. split.
      * intros H e He. inversion He; subst; [exact Hx|]. apply H. assumption.
      * intros H e He. apply H. right. exact He.
Qed.

(** The duration stored at position [k], read off the raw sequence. *)
Lemma record_of_duration timemap e k :
  timemap !! k = Some e ->
  duration (record_of timemap e k) =
  match timemap !! S k with
  | Some next => (timestamp next - timestamp e)%Q
  | None => 0%Q
  end.
Proof.
  intros Hk. apply lookup_lt_Some in Hk. simpl.
  destruct (timemap !! S k) as [next|] eqn:Hn.
  - pose proof (lookup_lt_Some _ _ _ Hn) as Hlt.
    destruct (Z.ltb_spec (Z.of_nat k) (Z.of_nat (length timemap) - 1)); [|lia].
    rewrite (list_lookup_total_correct _ _ _ Hn). reflexivity.
  - apply lookup_ge_None in Hn.
    destruct (Z.ltb_spec (Z.of_nat k) (Z.of_nat (length timemap) - 1)); [lia|].
    reflexivity.
Qed.

End TimemapFacts.

(** The index has a record for exactly the measures the raw sequence
    visits. *)
Lemma build_lookup_None (raw : list MeasureTimemapEntry) (m : MeasureIndex) :
  Timemap.build raw !! m = None <-> (forall e, e ∈ raw -> measure e <> m).
Proof.
  rewrite TimemapFacts.build_lookup. apply TimemapFacts.first_record_None.
Qed.

(** The callback leaves the index alone when the measure has its record. *)
Lemma callback_seen (raw : list MeasureTimemapEntry)
    (acc : gmap MeasureIndex MeasureRecord) (e : MeasureTimemapEntry) (i : nat) :
  is_Some (acc !! measure e) -> Timemap.callback raw acc e i = acc.
Proof. intros [r Hr]. unfold Timemap.callback. rewrite Hr. reflexivity. Qed.

(** The index after the first [n] entries have been processed. *)
Lemma forEach_take_lookup (raw : list MeasureTimemapEntry) (n : nat) (m : MeasureIndex) :
  Timemap.forEach (Timemap.callback raw) 0 (take n raw) ∅ !! m =
  Timemap.first_record raw m 0 (take n raw).
Proof. rewrite TimemapFacts.forEach_lookup, lookup_empty. reflexivity. Qed.

(** C1.  For every raw timemap sequence (sorted by timestamp or not), if
    position [k] holds the first visit [e] of a measure, then the index
    built by the constructor maps that measure to the record whose
    [start] is the timestamp of [e] and whose [duration] is the
    difference to the timestamp of the raw entry at position [k + 1], or
    0 when [e] is the last raw entry.  The record is in place as soon as
    position [k] has been processed and is the same after every later
    entry: later visits of the measure do not overwrite it. *)
Theorem build_first_occurrence (raw : list MeasureTimemapEntry) (k : nat)
    (e : MeasureTimemapEntry) :
  raw !! k = Some e ->
  (forall j e', (j < k)%nat -> raw !! j = Some e' -> measure e' <> measure e) ->
  let record :=
    {| start := timestamp e;
       duration := match raw !! S k with
                   | Some next => (timestamp next - timestamp e)%Q
                   | None => 0%Q
                   end |} in
  Timemap.build raw !! measure e = Some record /\
  (forall n, (k < n)%nat ->
     Timemap.forEach (Timemap.callback raw) 0 (take n raw) ∅ !! measure e
     = Some record) /\
  (forall r, Timemap.build raw !! measure e = Some r -> r = record).
Proof.
  intros Hk Hfirst record.
  assert (Hrec : Timemap.record_of raw e k = record).
  { unfold record. rewrite <- (TimemapFacts.record_of_duration raw e k Hk).
    reflexivity. }
  assert (Hbuild : Timemap.build raw !! measure e = Some record).
  { rewrite TimemapFacts.build_lookup.
    rewrite (TimemapFacts.first_record_at raw (measure e) raw 0 k e Hk eq_refl Hfirst).
    simpl. rewrite Hrec. reflexivity. }
  split; [exact Hbuild|]. split.
  - intros n Hn. rewrite forEach_take_lookup.
    rewrite (TimemapFacts.first_record_at raw (measure e) (take n raw) 0 k e).
    + simpl. rewrite Hrec. reflexivity.
    + rewrite lookup_take_lt by exact Hn. exact Hk.
    + reflexivity.
    + intros j e' Hj He'. apply (Hfirst j e' Hj).
      rewrite lookup_take_lt in He' by lia. exact He'.
  - intros r Hr. rewrite Hbuild in Hr. injection Hr as <-. reflexivity.
Qed.

(** In the repeat scenario measure 1 is first visited at position 1: its
    record starts at 500 ms and lasts until the entry at 900 ms; the
    second visit of measure 0 at position 2 changes nothing. *)
Lemma build_first_occurrence_witness :
  Timemap.build repeat_timemap !! 1 =
  Some {| start := 500%Q; duration := (900 - 500)%Q |}.
Proof.
  refine (proj1 (build_first_occurrence repeat_timemap 1
                   {| measure := 1; timestamp := 500%Q |} eq_refl _)).
  intros j e' Hj He'.
  destruct j as [|j]; [|lia].
  injection He' as <-. simpl. lia.
Defined.

(** C6, as the code does it.  Building the index from an empty raw
    sequence does not fail: the index is empty, and [load] produces a
    stopped player around it whenever the container exists and no
    collaborator fails. *)
Theorem load_empty_timemap (options : Player.PlayerOptions) :
  Player.containerFound options = true ->
  Player.collaboratorsFail options = false ->
  Player.converterTimemap options = [] ->
  Timemap.build (Player.converterTimemap options) = ∅ /\
  exists player, Player.load options = inr player /\
                 Player._timemap player = ∅ /\
                 Player.state player = Stopped.
Proof.
  intros Hc Hf Ht. unfold Player.load. rewrite Hc, Hf, Ht. simpl.
  split; [reflexivity|]. eexists. split; [reflexivity|]. split; reflexivity.
Qed.

Lemma load_empty_timemap_witness :
  Timemap.build (Player.converterTimemap empty_options) = ∅ /\
  exists player, Player.load empty_options = inr player /\
                 Player._timemap player = ∅ /\
                 Player.state player = Stopped.
Proof.
  apply (load_empty_timemap empty_options); reflexivity.
Defined.

(** C6 as stated fails: with an empty timemap [load] returns a player,
    not an error. *)
Lemma load_empty_timemap_no_error :
  ~ (forall options, Player.converterTimemap options = [] ->
       exists error, Player.load options = inl error).
Proof.
  intros H. destruct (H empty_options eq_refl) as [error Herr].
  discriminate Herr.
Qed.

(** ** The playback clock *)

(** [moveTo] throws, and writes nothing, when the measure has no record. *)
Lemma moveTo_unknown_measure (p : Player.t) (i : MeasureIndex)
    (s o now : MillisecsTimestamp) :
  Player._timemap p !! i = None -> Player.moveTo i s o now p = Player.Throw p.
Proof. intros H. unfold Player.moveTo. rewrite H. reflexivity. Qed.

(** C3, as the code does it.  For every measure index [i] that has a
    record in the timemap index, every [s] and [o] and every playback
    state, [moveTo(i, s, o)] completes normally, tracks measure [i], sets
    the measure-local anchor to [now - o], sets the global anchor to
    [now - (start + o)] and seeks the MIDI player to [start + o], where
    [start] is the start of the record of [i] in the index (not the
    argument [s]), leaves the playback state as it was, and puts the
    cursor at exactly [(i, s, o)].  When [s] is the start of the record
    the anchor is [now - (s + o)] and the seek goes to [s + o]. *)
Theorem moveTo_anchors (p : Player.t) (i : MeasureIndex)
    (s o now : MillisecsTimestamp) (record : MeasureRecord) :
  Player._timemap p !! i = Some record ->
  exists q,
    Player.moveTo i s o now p = Player.Normal q /\
    Player._measureIndex q = i /\
    Player._measureStart q = (now - o)%Q /\
    Player._playbackStart q = (now - (start record + o))%Q /\
    MidiPlayer.position (Player._midiPlayer q) = (start record + o)%Q /\
    Player.state q = Player.state p /\
    Player.position q = (i, s, o) /\
    (start record == s ->
       Player._playbackStart q == now - (s + o) /\
       MidiPlayer.position (Player._midiPlayer q) == s + o)%Q.
Proof.
  intros Hrec. unfold Player.moveTo. rewrite Hrec.
  eexists. split; [reflexivity|]. simpl.
  repeat (split; [reflexivity|]).
  intros Hs. rewrite Hs. split; reflexivity.
Qed.

Lemma moveTo_anchors_witness :
  exists q,
    Player.moveTo 1 500%Q 10%Q 1000%Q (Player.constructor repeat_timemap)
      = Player.Normal q /\
    Player._playbackStart q = (1000 - (500 + 10))%Q /\
    Player.position q = (1, 500%Q, 10%Q).
Proof.
  destruct (moveTo_anchors (Player.constructor repeat_timemap) 1 500%Q 10%Q 1000%Q
              {| start := 500%Q; duration := 400%Q |}
              ltac:(vm_compute; reflexivity))
    as (q & Hq & _ & _ & Hstart & _ & _ & Hpos & _).
  exists q. repeat split; assumption.
Defined.

(** C3 as stated fails.  In the repeat scenario the record of measure 1
    starts at 500 ms; [moveTo(1, 400, 10)] at [now = 1000] anchors the
    timeline at [1000 - 510] and seeks to 510, not at [1000 - 410] and
    to 410.  And for a measure without a record, [moveTo] throws. *)
Lemma moveTo_ignores_measureStart :
  (exists q,
     Player.moveTo 1 400%Q 10%Q 1000%Q (Player.constructor repeat_timemap)
       = Player.Normal q /\
     ~ (Player._playbackStart q == 1000 - (400 + 10))%Q /\
     ~ (MidiPlayer.position (Player._midiPlayer q) == 400 + 10)%Q) /\
  Player.moveTo 7 0%Q 0%Q 1000%Q (Player.constructor repeat_timemap)
    = Player.Throw (Player.constructor repeat_timemap).
Proof.
  split.
  - eexists. split; [vm_compute; reflexivity|].
    split; intros H; vm_compute in H; discriminate H.
  - vm_compute. reflexivity.
Qed.

(** C5.  When the player is playing, [pause()] at [now] followed by
    [play()] at [now + dt] takes the resume branch and moves both
    anchors forward by [dt]: the timeline position [now' - _playbackStart]
    and the measure offset [now' - _measureStart] at the instant of the
    resume are those of the instant of the pause, for every [dt]. *)
Theorem pause_play_resumes (p : Player.t) (now dt : MillisecsTimestamp) :
  Player.state p = Playing ->
  let paused := Player.pause now p in
  let resumed := Player.play (now + dt)%Q paused in
  Player.state paused = Paused /\
  Player.play_branch paused = Player.Resume /\
  Player.state resumed = Playing /\
  Player._measureIndex resumed = Player._measureIndex p /\
  (Player._playbackStart resumed == Player._playbackStart p + dt)%Q /\
  (Player._measureStart resumed == Player._measureStart p + dt)%Q /\
  ((now + dt) - Player._playbackStart resumed == now - Player._playbackStart p)%Q /\
  ((now + dt) - Player._measureStart resumed == now - Player._measureStart p)%Q.
Proof.
  intros Hplaying.
  destruct p as [[st pos] pS pP mI mS mO tm mu raw cur out].
  unfold Player.state in Hplaying. simpl in Hplaying. subst st.
  unfold Player.play, Player.pause, Player._play, Player.play_branch,
    Player.state; cbn.
  repeat (split; [reflexivity|]).
  repeat split; ring.
Qed.

Lemma pause_play_resumes_witness :
  let p := Player.play 1000%Q (Player.constructor repeat_timemap) in
  let resumed := Player.play (1200 + 700)%Q (Player.pause 1200%Q p) in
  ((1200 + 700) - Player._playbackStart resumed == 1200 - Player._playbackStart p)%Q.
Proof.
  intros p resumed.
  exact (proj1 (proj2 (proj2 (proj2 (proj2 (proj2 (proj2
    (pause_play_resumes p 1200%Q 700%Q eq_refl)))))))).
Defined.

Lemma PlayerState_eqb_eq (a b : PlayerState) :
  PlayerState_eqb a b = true <-> a = b.
Proof. destruct a, b; simpl; split; congruence. Qed.

Lemma Qeq_bool_false_iff (x y : Q) : Qeq_bool x y = false <-> ~ (x == y)%Q.
Proof.
  split.
  - intros H Heq. apply Qeq_bool_iff in Heq. congruence.
  - intros H. destruct (Qeq_bool x y) eqn:E; [|reflexivity].
    apply Qeq_bool_iff in E. contradiction.
Qed.

(** C7, as the code does it.  [_play] takes the resume branch exactly
    when the MIDI player is paused or the global anchor is off its zero
    sentinel; the sentinel alone decides whenever the MIDI player is not
    paused.  On the resume branch [play()] shifts both anchors by the
    time spent since [_playbackPause]; on the other it anchors to [now]
    at measure 0. *)
Theorem play_branch_resume_iff (p : Player.t) :
  (Player.play_branch p = Player.Resume <->
     Player.state p = Paused \/ ~ (Player._playbackStart p == 0)%Q) /\
  (Player.state p <> Paused ->
     (Player.play_branch p = Player.Resume <-> ~ (Player._playbackStart p == 0)%Q)) /\
  (forall now, Player.state p <> Playing ->
     Player.play_branch p = Player.Resume ->
     let q := Player.play now p in
     Player.state q = Playing /\
     Player._playbackStart q
       = (Player._playbackStart p + (now - Player._playbackPause p))%Q /\
     Player._measureStart q
       = (Player._measureStart p + (now - Player._playbackPause p))%Q /\
     Player._measureIndex q = Player._measureIndex p) /\
  (forall now, Player.state p <> Playing ->
     Player.play_branch p = Player.FreshStart ->
     let q := Player.play now p in
     Player.state q = Playing /\
     Player._playbackStart q = now /\
     Player._measureStart q = now /\
     Player._measureIndex q = 0).
Proof.
  assert (Hiff : Player.play_branch p = Player.Resume <->
     Player.state p = Paused \/ ~ (Player._playbackStart p == 0)%Q).
  { unfold Player.play_branch.
    destruct (PlayerState_eqb (Player.state p) Paused) eqn:Hs; simpl.
    - apply PlayerState_eqb_eq in Hs. split; [intros _; left; exact Hs|reflexivity].
    - assert (Hne : Player.state p <> Paused).
      { intros H. apply PlayerState_eqb_eq in H. congruence. }
      destruct (Qeq_bool (Player._playbackStart p) 0) eqn:Hq; simpl.
      + apply Qeq_bool_iff in Hq. split; [discriminate|].
        intros [H|H]; contradiction.
      + apply Qeq_bool_false_iff in Hq. split; [intros _; right; exact Hq|reflexivity]. }
  split; [exact Hiff|]. split.
  - intros Hne. rewrite Hiff. split; [intros [H|H]; [contradiction|exact H]|].
    intros H. right. exact H.
  - split; intros now Hnp Hbranch q; subst q; unfold Player.play, Player._play;
      rewrite Hbranch;
      destruct p as [[st pos] pS pP mI mS mO tm mu raw cur out];
      unfold Player.state in *; simpl in *;
      destruct st; try contradiction; simpl; repeat split; reflexivity.
Qed.

(** A never-started player starts afresh; once paused it resumes. *)
Lemma play_branch_resume_iff_witness :
  let fresh := Player.constructor repeat_timemap in
  let paused := Player.pause 1200%Q (Player.play 1000%Q fresh) in
  Player._playbackStart (Player.play 1000%Q fresh) = 1000%Q /\
  Player._playbackStart (Player.play 1900%Q paused)
    = (Player._playbackStart paused + (1900 - Player._playbackPause paused))%Q.
Proof.
  intros fresh paused. split.
  - destruct (proj2 (proj2 (proj2 (play_branch_resume_iff fresh))) 1000%Q
                ltac:(discriminate) ltac:(reflexivity)) as (_ & H & _).
    exact H.
  - destruct (proj1 (proj2 (proj2 (play_branch_resume_iff paused))) 1900%Q
                ltac:(discriminate) ltac:(reflexivity)) as (_ & H & _).
    exact H.
Defined.

(** C7 as stated fails.  In the repeat scenario: [play()] at 100 ms,
    [pause()] at 200 ms, then [moveTo(0, 0, 300)] at 300 ms.  The seek
    target is 300 ms into the stream, so the global anchor becomes
    [300 - 300], the zero sentinel, while the MIDI player is paused: the
    next [play()] takes the resume branch with the anchor at zero. *)
Lemma resume_with_zero_anchor :
  exists p,
    Engine.reachable repeat_timemap p /\
    Player.play_branch p = Player.Resume /\
    (Player._playbackStart p == 0)%Q.
Proof.
  exists (Engine.run [(100%Q, Engine.Play); (200%Q, Engine.Pause);
                      (300%Q, Engine.MoveTo 0 0%Q 300%Q)]
            (Player.constructor repeat_timemap)).
  split.
  - eexists. split; [|reflexivity]. simpl.
    repeat split; apply Qle_bool_imp_le; reflexivity.
  - split; vm_compute; reflexivity.
Qed.

(** ** The external-clock adapter *)

(** C8, as the code does it.  On a change notification with vector
    [v]: velocity 0 at position 0 calls [rewind()]; velocity 0 at another
    position calls [pause()], which pauses a playing engine and leaves
    any other engine as it is; a nonzero velocity calls [play()], after
    which the engine is playing. *)
Theorem handleTimingsrcChange_maps (p : Player.t) (v : TimingObject.Vector)
    (now : MillisecsTimestamp) :
  let q := Timingsrc._handleTimingsrcChange (Some v) now p in
  ((TimingObject.velocity v == 0)%Q -> (TimingObject.position v == 0)%Q ->
     q = Player.rewind p /\ Engine.never_started q /\
     Player.position q = (0, 0%Q, 0%Q)) /\
  ((TimingObject.velocity v == 0)%Q -> ~ (TimingObject.position v == 0)%Q ->
     q = Player.pause now p /\
     (Player.state p = Playing -> Player.state q = Paused) /\
     (Player.state p <> Playing -> q = p)) /\
  (~ (TimingObject.velocity v == 0)%Q ->
     q = Player.play now p /\ Player.state q = Playing).
Proof.
  intros q. subst q. unfold Timingsrc._handleTimingsrcChange.
  split; [|split].
  - intros Hv Hp. apply Qeq_bool_iff in Hv, Hp. rewrite Hv, Hp.
    split; [reflexivity|]. split; [split|]; reflexivity.
  - intros Hv Hp. apply Qeq_bool_iff in Hv. apply Qeq_bool_false_iff in Hp.
    rewrite Hv, Hp. split; [reflexivity|].
    destruct p as [[st pos] pS pP mI mS mO tm mu raw cur out].
    unfold Player.pause, Player.state; simpl.
    split; intros Hst; destruct st; simpl; congruence.
  - intros Hv. apply Qeq_bool_false_iff in Hv. rewrite Hv.
    split; [reflexivity|].
    destruct p as [[st pos] pS pP mI mS mO tm mu raw cur out].
    unfold Player.play, Player._play, Player.play_branch, Player.state; simpl.
    destruct st; simpl; try reflexivity.
    destruct (Qeq_bool pS 0); reflexivity.
Qed.

(** A paused clock away from position 0 pauses the playing engine. *)
Lemma handleTimingsrcChange_maps_witness :
  let p := Player.play 1000%Q (Player.constructor repeat_timemap) in
  let q := Timingsrc._handleTimingsrcChange
             (Some {| TimingObject.position := 5%Q; TimingObject.velocity := 0%Q |}) 1200%Q p in
  q = Player.pause 1200%Q p /\ Player.state q = Paused.
Proof.
  intros p q.
  destruct (proj1 (proj2 (handleTimingsrcChange_maps p
              {| TimingObject.position := 5%Q; TimingObject.velocity := 0%Q |} 1200%Q))
              ltac:(reflexivity) ltac:(intros H; discriminate H))
    as (Hq & Hplaying & _).
  split; [exact Hq|]. apply Hplaying. reflexivity.
Defined.

(** C8 as stated fails.  A never-started engine that is notified of
    velocity 0 at position 5 stays stopped: [pause()] returns at its
    guard. *)
Lemma handleTimingsrcChange_stopped_stays_stopped :
  Player.state
    (Timingsrc._handleTimingsrcChange
       (Some {| TimingObject.position := 5%Q; TimingObject.velocity := 0%Q |}) 1200%Q
       (Player.constructor repeat_timemap)) = Stopped.
Proof. reflexivity. Qed.

(** ** The output router *)

(** C9.  Whatever the parser: a muted router forwards nothing, whatever
    the event; an unmuted router hands the message to the sink when the
    parsed event has a channel and forwards nothing otherwise.  So the
    sink receives the message if and only if the router is not muted and
    the event is a channel event.  Nothing but the sink is touched. *)
Theorem send_forwards_channel_events (parseMidiEvent : list Z -> IMidiEvent)
    (data : list Z) (timestamp : option MillisecsTimestamp) (p : Player.t) :
  let q := Router.send parseMidiEvent data timestamp p in
  (Player.mute p = true -> q = p) /\
  (Player.mute p = false -> is_Some (channel (parseMidiEvent data)) ->
     q = Player.output_send data timestamp p /\
     Player._output q = Player._output p ++ [(data, timestamp)]) /\
  (Player.mute p = false -> channel (parseMidiEvent data) = None -> q = p) /\
  (Player._output q <> Player._output p <->
     Player.mute p = false /\ is_Some (channel (parseMidiEvent data))).
Proof.
  intros q. subst q. unfold Router.send.
  destruct (Player.mute p).
  - split; [reflexivity|]. split; [discriminate|]. split; [discriminate|].
    split; [intros H; contradiction|]. intros [H _]. discriminate.
  - split; [discriminate|].
    destruct (channel (parseMidiEvent data)) as [c|] eqn:Hc.
    + split; [intros _ _; split; reflexivity|]. split; [discriminate|].
      split; [intros _; split; [reflexivity|eexists; reflexivity]|].
      intros _. simpl. intros H. apply (f_equal length) in H.
      rewrite length_app in H. simpl in H. lia.
    + split; [intros _ [c Hc']; discriminate|]. split; [reflexivity|].
      split; [intros H; contradiction|]. intros [_ [c Hc']]. discriminate.
Qed.


(** A note-on message passes an unmuted router; a meta message (status
    0xFF) does not. *)
Lemma send_forwards_channel_events_witness :
  let p := Player.constructor repeat_timemap in
  Player._output
    (Router.send Router.parseMidiEvent_by_status [144; 60; 100] (Some 1000%Q) p)
    = [([144; 60; 100], Some 1000%Q)] /\
  Router.send Router.parseMidiEvent_by_status [255; 6; 0] (Some 1000%Q) p = p.
Proof.
  intros p. split.
  - destruct (proj1 (proj2 (send_forwards_channel_events
                Router.parseMidiEvent_by_status [144; 60; 100] (Some 1000%Q) p))
                eq_refl ltac:(eexists; reflexivity)) as [_ H].
    exact H.
  - exact (proj1 (proj2 (proj2 (send_forwards_channel_events
             Router.parseMidiEvent_by_status [255; 6; 0] (Some 1000%Q) p)))
             eq_refl eq_refl).
Defined.

(** With the status-byte parser of the specification, an unmuted router
    forwards exactly the messages whose status byte is a channel status
    (0x80 to 0xEF). *)
Lemma send_by_status (status : Z) (rest : list Z)
    (timestamp : option MillisecsTimestamp) (p : Player.t) :
  Player.mute p = false ->
  let q := Router.send Router.parseMidiEvent_by_status (status :: rest) timestamp p in
  Player._output q <> Player._output p <-> 128 <= status < 240.
Proof.
  intros Hmute q. subst q. unfold Router.send. rewrite Hmute. simpl.
  destruct (Z.leb_spec 128 status), (Z.ltb_spec status 240); simpl;
    (split; [intros Hsent; first [lia | contradiction]|intros Hrange; try lia]).
  intros Hsame. apply (f_equal length) in Hsame.
  rewrite length_app in Hsame. simpl in Hsame. lia.
Qed.

(** ** The synthesizer sink *)

Module SoundFontFacts.
Import SoundFontOutput.

Lemma noteOff_length channel' pitch' timestamp s :
  length (notes (noteOff channel' pitch' timestamp s)) = length (notes s).
Proof.
  unfold noteOff.
  destruct (list_find _ (notes s)) as [[i note]|]; [|reflexivity].
  simpl. apply length_insert.
Qed.

(** The note [noteOff] picks is the first active one of that channel and
    pitch, and it is the only note that changes. *)
Lemma noteOff_found channel' pitch' timestamp s i note :
  list_find (is_active_note channel' pitch') (notes s) = Some (i, note) ->
  notes s !! i = Some note /\
  is_active_note channel' pitch' note /\
  (forall j other, (j < i)%nat -> notes s !! j = Some other ->
     ~ is_active_note channel' pitch' other) /\
  notes (noteOff channel' pitch' timestamp s) !! i = Some (set_off timestamp note) /\
  (forall j, j <> i ->
     notes (noteOff channel' pitch' timestamp s) !! j = notes s !! j).
Proof.
  intros Hfind. unfold noteOff. rewrite Hfind. simpl.
  apply list_find_Some in Hfind as (Hi & Hactive & Hfirst).
  split; [exact Hi|]. split; [exact Hactive|].
  split; [intros j other Hj Hother; exact (Hfirst j other Hother Hj)|].
  split.
  - apply list_lookup_insert_eq. exact (lookup_lt_Some _ _ _ Hi).
  - intros j Hj. apply list_lookup_insert_ne. congruence.
Qed.

Lemma noteOff_not_found channel' pitch' timestamp s :
  list_find (is_active_note channel' pitch') (notes s) = None ->
  noteOff channel' pitch' timestamp s = s.
Proof. intros Hfind. unfold noteOff. rewrite Hfind. reflexivity. Qed.

(** Once its [off] time has come, the scheduler cancels the envelope of a
    note and drops the note. *)
Lemma scheduleNotes_due now s note :
  note ∈ notes s -> is_due now note = true ->
  envelope note ∈ cancelled (scheduleNotes now s) /\
  note ∉ notes (scheduleNotes now s).
Proof.
  intros Hin Hdue. simpl. split.
  - apply elem_of_app. right. apply list_elem_of_In, in_map, filter_In.
    split; [apply list_elem_of_In; exact Hin|exact Hdue].
  - intros H. apply list_elem_of_In, filter_In in H as [_ H].
    rewrite Hdue in H. discriminate H.
Qed.

End SoundFontFacts.

(** C10.  A three-byte message whose status byte has type 9 (note on)
    and whose velocity is 0 is handled as a note off: [send] does what
    [noteOff] does for the channel and pitch of the message.  No note is
    added.  If an active note of that channel and pitch exists, the first
    one gets the timestamp as its [off] time, every other note is left
    as it is, and the scheduler cancels that note once the time has come;
    if none exists nothing changes. *)
Theorem send_noteOn_velocity_zero_is_noteOff (currentTime now : Q)
    (status pitch' : Z) (timestamp : MillisecsTimestamp) (s : SoundFontOutput.t) :
  Z.shiftr status 4 = 9 ->
  let channel' := Z.land status 15 in
  let s' := SoundFontOutput.noteOff channel' (Some pitch') timestamp s in
  SoundFontOutput.send currentTime now [status; pitch'; 0] timestamp s
    = SoundFontOutput.Normal s' /\
  length (SoundFontOutput.notes s') = length (SoundFontOutput.notes s) /\
  (forall i note,
     list_find (SoundFontOutput.is_active_note channel' (Some pitch'))
       (SoundFontOutput.notes s) = Some (i, note) ->
     SoundFontOutput.pitch note = pitch' /\
     SoundFontOutput.channel note = channel' /\
     SoundFontOutput.off note = None /\
     SoundFontOutput.notes s' !! i
       = Some (SoundFontOutput.set_off timestamp note) /\
     (forall j, j <> i ->
        SoundFontOutput.notes s' !! j = SoundFontOutput.notes s !! j) /\
     (forall later, (timestamp <= later)%Q ->
        SoundFontOutput.envelope note
          ∈ SoundFontOutput.cancelled (SoundFontOutput.scheduleNotes later s') /\
        SoundFontOutput.set_off timestamp note
          ∉ SoundFontOutput.notes (SoundFontOutput.scheduleNotes later s'))) /\
  (list_find (SoundFontOutput.is_active_note channel' (Some pitch'))
     (SoundFontOutput.notes s) = None -> s' = s).
Proof.
  intros Htype channel' s'.
  split.
  - unfold SoundFontOutput.send, SoundFontOutput.dispatch. simpl.
    rewrite Htype. reflexivity.
  - split; [apply SoundFontFacts.noteOff_length|]. split.
    + intros i note Hfind.
      destruct (SoundFontFacts.noteOff_found channel' (Some pitch') timestamp s i note Hfind)
        as (Hi & (Hp & Hc & Hoff) & _ & Hnew & Hothers).
      split; [congruence|]. split; [exact Hc|]. split; [exact Hoff|].
      split; [exact Hnew|]. split; [exact Hothers|].
      intros later Hlater.
      apply (SoundFontFacts.scheduleNotes_due later s' (SoundFontOutput.set_off timestamp note)).
      * apply list_elem_of_lookup. exists i. exact Hnew.
      * unfold SoundFontOutput.is_due. simpl.
        destruct (Qlt_le_dec later timestamp) as [Hlt|Hle]; [|reflexivity].
        exfalso. apply (Qlt_not_le _ _ Hlt). exact Hlater.
    + apply SoundFontFacts.noteOff_not_found.
Qed.

(** Note on, channel 0, pitch 60, velocity 0, at 1000 ms: the sounding
    note gets its [off] time. *)
Lemma send_noteOn_velocity_zero_is_noteOff_witness :
  SoundFontOutput.send 0%Q 0%Q [144; 60; 0] 1000%Q one_note
  = SoundFontOutput.Normal
      (SoundFontOutput.noteOff 0 (Some 60) 1000%Q one_note) /\
  SoundFontOutput.off <$> SoundFontOutput.notes
      (SoundFontOutput.noteOff 0 (Some 60) 1000%Q one_note) = [Some 1000%Q].
Proof.
  split.
  - exact (proj1 (send_noteOn_velocity_zero_is_noteOff 0%Q 0%Q 144 60 1000%Q
                    one_note eq_refl)).
  - reflexivity.
Defined.

(** ** The synchronization tick *)

Module SyncFacts.
Import Player.

(** The comparator depends on the query only through its timestamp, up
    to equality of rationals. *)
Lemma comparator_Qeq (a a' x : MeasureTimemapEntry) :
  (timestamp a == timestamp a')%Q ->
  (Sync.comparator a x == Sync.comparator a' x)%Q.
Proof.
  intros Heq. unfold Sync.comparator.
  assert (Hd : (timestamp a - timestamp x == timestamp a' - timestamp x)%Q)
    by (rewrite Heq; reflexivity).
  destruct (Qlt_le_dec (Qabs (timestamp a - timestamp x)) Sync.EPSILON) as [H1|H1];
    destruct (Qlt_le_dec (Qabs (timestamp a' - timestamp x)) Sync.EPSILON) as [H2|H2];
    try reflexivity; try exact Hd.
  - rewrite Hd in H1. exfalso. exact (Qlt_not_le _ _ H1 H2).
  - rewrite Hd in H1. exfalso. exact (Qlt_not_le _ _ H2 H1).
Qed.

(** The search takes the same path for two queries that every element
    compares alike with. *)
Lemma binarySearch_loop_ext {T : Type} (arr : list T) (el el' : T)
    (comparator : T -> T -> Q) :
  (forall x, (comparator el x == comparator el' x)%Q) ->
  forall fuel m n,
    Helpers.binarySearch_loop arr el comparator fuel m n =
    Helpers.binarySearch_loop arr el' comparator fuel m n.
Proof.
  intros Hcmp. induction fuel as [|fuel IH]; intros m n; simpl; [reflexivity|].
  destruct (m <=? n); [|reflexivity].
  destruct (arr !! Z.to_nat (Z.shiftr (n + m) 1)) as [x|]; [|reflexivity].
  specialize (Hcmp x).
  destruct (Qlt_le_dec 0 (comparator el x)) as [H1|H1];
    destruct (Qlt_le_dec 0 (comparator el' x)) as [H2|H2].
  - apply IH.
  - rewrite Hcmp in H1. exfalso. exact (Qlt_not_le _ _ H1 H2).
  - rewrite Hcmp in H1. exfalso. exact (Qlt_not_le _ _ H2 H1).
  - destruct (Qlt_le_dec (comparator el x) 0) as [H3|H3];
      destruct (Qlt_le_dec (comparator el' x) 0) as [H4|H4].
    + apply IH.
    + rewrite Hcmp in H3. exfalso. exact (Qlt_not_le _ _ H3 H4).
    + rewrite Hcmp in H3. exfalso. exact (Qlt_not_le _ _ H4 H3).
    + reflexivity.
Qed.

Lemma binarySearch_timestamp (arr : list MeasureTimemapEntry)
    (el el' : MeasureTimemapEntry) :
  (timestamp el == timestamp el')%Q ->
  Helpers.binarySearch arr el Sync.comparator =
  Helpers.binarySearch arr el' Sync.comparator.
Proof.
  intros Heq. unfold Helpers.binarySearch. apply binarySearch_loop_ext.
  intros x. apply comparator_Qeq. exact Heq.
Qed.

(** No event changes the raw timemap or the index built from it. *)
Lemma step_timemap now ev p :
  _converter_timemap (Engine.step now ev p) = _converter_timemap p /\
  _timemap (Engine.step now ev p) = _timemap p.
Proof.
  assert (Hplay : forall now p, _converter_timemap (play now p) = _converter_timemap p /\
                         _timemap (play now p) = _timemap p).
  { clear. intros now p. unfold play, _play.
    destruct (PlayerState_eqb (state p) Playing); [split; reflexivity|].
    destruct (play_branch p); simpl;
      match goal with |- context [if ?b then _ else _] => destruct b end;
      split; reflexivity. }
  assert (Hpause : forall now p, _converter_timemap (pause now p) = _converter_timemap p /\
                         _timemap (pause now p) = _timemap p).
  { clear. intros now p. unfold pause.
    destruct (negb (PlayerState_eqb (state p) Playing)); split; reflexivity. }
  destruct ev as [i s o| | | | | |vector]; simpl.
  - unfold moveTo. destruct (_timemap p !! i); split; reflexivity.
  - apply Hplay.
  - apply Hpause.
  - split; reflexivity.
  - unfold Sync.synchronizeMidi.
    destruct (negb (PlayerState_eqb (state p) Playing)); [split; reflexivity|].
    destruct (_converter_timemap p !! _) as [entry|]; [|split; reflexivity].
    destruct (negb (_measureIndex p =? measure entry)); simpl;
      match goal with |- context [match ?o with Some _ => _ | None => _ end] =>
        destruct o end; split; reflexivity.
  - unfold Engine.playbackEnded, _play_settled.
    destruct (PlayerState_eqb (state p) Playing); [|split; reflexivity].
    match goal with |- context [if ?b then _ else _] => destruct b end;
      split; reflexivity.
  - unfold Timingsrc._handleTimingsrcChange.
    destruct vector as [v|]; [|apply Hplay].
    destruct (Qeq_bool (TimingObject.velocity v) 0); [|apply Hplay].
    destruct (Qeq_bool (TimingObject.position v) 0); [split; reflexivity|apply Hpause].
Qed.

Lemma run_timemap events : forall p,
  _converter_timemap (Engine.run events p) = _converter_timemap p /\
  _timemap (Engine.run events p) = _timemap p.
Proof.
  induction events as [|[now ev] events IH]; intros p; simpl; [split; reflexivity|].
  destruct (IH (Engine.step now ev p)) as [H1 H2].
  destruct (step_timemap now ev p) as [H3 H4].
  split; congruence.
Qed.

Lemma reachable_timemap timemap p :
  Engine.reachable timemap p ->
  _converter_timemap p = timemap /\ _timemap p = Timemap.build timemap.
Proof.
  intros (events & _ & <-). apply (run_timemap events (constructor timemap)).
Qed.

End SyncFacts.

(** ** The binary search returns the floor *)

Module BinarySearchFacts.
Import Helpers.

Lemma midpoint_bounds (m n : Z) : m <= n -> m <= Z.shiftr (n + m) 1 <= n.
Proof.
  intros Hmn. rewrite Z.shiftr_div_pow2 by lia. change (2 ^ 1) with 2.
  split.
  - apply Z.div_le_lower_bound; lia.
  - apply Z.div_le_upper_bound; lia.
Qed.

(** More fuel than the width of the interval changes nothing: the loop
    ends by itself. *)
Lemma binarySearch_loop_fuel {T : Type} (arr : list T) (el : T)
    (comparator : T -> T -> Q) (fuel : nat) : forall fuel' m n,
  0 <= m -> n < Z.of_nat (length arr) ->
  (Z.to_nat (n - m + 1) < fuel)%nat -> (Z.to_nat (n - m + 1) < fuel')%nat ->
  binarySearch_loop arr el comparator fuel m n =
  binarySearch_loop arr el comparator fuel' m n.
Proof.
  induction fuel as [|fuel IH]; intros fuel' m n Hm Hn Hfuel Hfuel'; [lia|].
  destruct fuel' as [|fuel']; [lia|]. simpl.
  destruct (Z.leb_spec m n) as [Hle|Hgt]; [|reflexivity].
  pose proof (midpoint_bounds m n Hle) as Hk.
  destruct (arr !! Z.to_nat (Z.shiftr (n + m) 1)) as [x|]; [|reflexivity].
  destruct (Qlt_le_dec 0 (comparator el x)); [apply IH; lia|].
  destruct (Qlt_le_dec (comparator el x) 0); [apply IH; lia|reflexivity].
Qed.

Section Loop.

Context {T : Type} (arr : list T) (el : T) (comparator : T -> T -> Q).

(** The array is ordered for the query: what lies before an element
    below the query is below it, what lies after an element above the
    query is above it. *)
Hypothesis before_smaller : forall j k x y,
  (j <= k)%nat -> arr !! j = Some x -> arr !! k = Some y ->
  query_after comparator el y -> query_after comparator el x.
Hypothesis after_greater : forall j k x y,
  (j <= k)%nat -> arr !! j = Some x -> arr !! k = Some y ->
  query_before comparator el x -> query_before comparator el y.

Lemma binarySearch_loop_spec (fuel : nat) : forall m n,
  0 <= m -> n < Z.of_nat (length arr) -> m <= n + 1 ->
  (Z.to_nat (n - m + 1) < fuel)%nat ->
  (forall j x, Z.of_nat j < m -> arr !! j = Some x -> query_after comparator el x) ->
  (forall j x, n < Z.of_nat j -> arr !! j = Some x -> query_before comparator el x) ->
  search_result arr el comparator (binarySearch_loop arr el comparator fuel m n).
Proof.
  induction fuel as [|fuel IH]; intros m n Hm Hn Hmn Hfuel Hlow Hhigh; [lia|].
  simpl. destruct (Z.leb_spec m n) as [Hle|Hgt].
  - pose proof (midpoint_bounds m n Hle) as Hk.
    set (k := Z.shiftr (n + m) 1) in *.
    destruct (arr !! Z.to_nat k) as [x|] eqn:Hx.
    2: { apply lookup_ge_None in Hx. lia. }
    destruct (Qlt_le_dec 0 (comparator el x)) as [Hafter|Hnot_after].
    + apply IH; try lia; [|exact Hhigh].
      intros j y Hj Hy.
      apply (before_smaller j (Z.to_nat k) y x); [lia|exact Hy|exact Hx|exact Hafter].
    + destruct (Qlt_le_dec (comparator el x) 0) as [Hbefore|Hnot_before].
      * apply IH; try lia; [exact Hlow|].
        intros j y Hj Hy.
        apply (after_greater (Z.to_nat k) j x y); [lia|exact Hx|exact Hy|exact Hbefore].
      * left. split; [lia|]. exists x. split; [exact Hx|].
        split; apply Qle_not_lt; assumption.
  - right. split; [lia|]. cbv zeta.
    replace (- (- m - 1) - 1) with m by lia.
    split; [lia|]. split; [exact Hlow|].
    intros j y Hj Hy. apply (Hhigh j y); [lia|exact Hy].
Qed.

(** The search ends within its fuel, on a match or on the insertion
    point. *)
Lemma binarySearch_spec :
  search_result arr el comparator (binarySearch arr el comparator).
Proof.
  unfold binarySearch. apply binarySearch_loop_spec; try lia.
  intros j x Hj Hx. apply lookup_lt_Some in Hx. lia.
Qed.

End Loop.

End BinarySearchFacts.

(** ** The tick selects the floor entry *)

Module FloorFacts.

Lemma EPSILON_pos : (0 < Sync.EPSILON)%Q.
Proof. reflexivity. Qed.

(** The comparator is positive exactly when the query is later than the
    entry by at least [EPSILON], negative when it is earlier by at least
    [EPSILON]. *)
Lemma comparator_after (a x : MeasureTimemapEntry) :
  Helpers.query_after Sync.comparator a x <->
  (timestamp x + Sync.EPSILON <= timestamp a)%Q.
Proof.
  unfold Helpers.query_after, Sync.comparator. pose proof EPSILON_pos as Heps.
  destruct (Qlt_le_dec (Qabs (timestamp a - timestamp x)) Sync.EPSILON) as [Hnear|Hfar].
  - apply Qabs_Qlt_condition in Hnear. split; intros H; lra.
  - split; intros H; [|lra].
    rewrite Qabs_pos in Hfar by lra. lra.
Qed.

Lemma comparator_before (a x : MeasureTimemapEntry) :
  Helpers.query_before Sync.comparator a x <->
  (timestamp a + Sync.EPSILON <= timestamp x)%Q.
Proof.
  unfold Helpers.query_before, Sync.comparator. pose proof EPSILON_pos as Heps.
  destruct (Qlt_le_dec (Qabs (timestamp a - timestamp x)) Sync.EPSILON) as [Hnear|Hfar].
  - apply Qabs_Qlt_condition in Hnear. split; intros H; lra.
  - split; intros H; [|lra].
    rewrite Qabs_neg in Hfar by lra. lra.
Qed.

Lemma comparator_equal (a x : MeasureTimemapEntry) :
  ~ Helpers.query_after Sync.comparator a x ->
  ~ Helpers.query_before Sync.comparator a x ->
  (Qabs (timestamp a - timestamp x) < Sync.EPSILON)%Q.
Proof.
  rewrite comparator_after, comparator_before. intros H1 H2.
  apply Qabs_Qlt_condition. split.
  - apply Qnot_le_lt. intros H. apply H2. lra.
  - apply Qnot_le_lt. intros H. apply H1. lra.
Qed.

(** On a timemap sorted by timestamp, the search over the raw sequence
    returns a match within [EPSILON] or the insertion point of the
    query. *)
Lemma binarySearch_sorted (raw : list MeasureTimemapEntry)
    (el : MeasureTimemapEntry) :
  Sync.sorted_by_timestamp raw ->
  Helpers.search_result raw el Sync.comparator
    (Helpers.binarySearch raw el Sync.comparator).
Proof.
  intros Hsorted. apply BinarySearchFacts.binarySearch_spec.
  - intros j k x y Hjk Hx Hy. rewrite !comparator_after.
    pose proof (Hsorted j k x y Hjk Hx Hy). lra.
  - intros j k x y Hjk Hx Hy. rewrite !comparator_before.
    pose proof (Hsorted j k x y Hjk Hx Hy). lra.
Qed.

(** The entry the tick selects on a sorted, non-empty timemap: an entry
    within [EPSILON] of the elapsed time; or the last entry before the
    elapsed time, all entries after it being later than the elapsed
    time; or, when the elapsed time is before the first entry, the first
    entry. *)
Lemma floor_entry (raw : list MeasureTimemapEntry) (el : MeasureTimemapEntry) :
  Sync.sorted_by_timestamp raw -> raw <> [] ->
  let f := Z.to_nat (Sync.floor_index (Helpers.binarySearch raw el Sync.comparator)) in
  exists e,
    raw !! f = Some e /\
    ((Qabs (timestamp el - timestamp e) < Sync.EPSILON)%Q \/
     ((timestamp e + Sync.EPSILON <= timestamp el)%Q /\
      forall j y, (f < j)%nat -> raw !! j = Some y ->
        (timestamp el + Sync.EPSILON <= timestamp y)%Q) \/
     (f = 0%nat /\
      forall j y, raw !! j = Some y ->
        (timestamp el + Sync.EPSILON <= timestamp y)%Q)).
Proof.
  intros Hsorted Hne f. subst f.
  destruct (binarySearch_sorted raw el Hsorted)
    as [(Hr & x & Hx & Hna & Hnb)|(Hr & Hip & Hlow & Hhigh)].
  - unfold Sync.floor_index.
    destruct (Z.geb_spec (Helpers.binarySearch raw el Sync.comparator) 0); [|lia].
    exists x. split; [exact Hx|]. left. apply comparator_equal; assumption.
  - set (r := Helpers.binarySearch raw el Sync.comparator) in *.
    unfold Sync.floor_index. destruct (Z.geb_spec r 0); [lia|].
    destruct (Z.eq_dec (- r - 1) 0) as [Hzero|Hpos].
    + replace (Z.max 0 (- r - 2)) with 0 by lia.
      destruct raw as [|e raw']; [contradiction|]. exists e.
      split; [reflexivity|]. right. right. split; [reflexivity|].
      intros j y Hy. apply comparator_before, (Hhigh j y); [lia|exact Hy].
    + replace (Z.max 0 (- r - 2)) with (- r - 2) by lia.
      destruct (raw !! Z.to_nat (- r - 2)) as [e|] eqn:He.
      2: { apply lookup_ge_None in He. lia. }
      exists e. split; [reflexivity|]. right. left. split.
      * apply comparator_after, (Hlow (Z.to_nat (- r - 2)) e); [lia|exact He].
      * intros j y Hj Hy. apply comparator_before, (Hhigh j y); [lia|exact Hy].
Qed.

End FloorFacts.

(** For a query at 950 ms the search over the raw repeat scenario ends
    between positions 2 and 3: insertion point 3, encoded as -4, whose
    floor is position 2, the second visit of measure 0. *)
Lemma binarySearch_repeat_950 (el : MeasureTimemapEntry) :
  (timestamp el == 950)%Q ->
  Helpers.binarySearch repeat_timemap el Sync.comparator = -4 /\
  repeat_timemap !! Z.to_nat (Sync.floor_index (-4))
    = Some {| measure := 0; timestamp := 900%Q |}.
Proof.
  intros Heq. split; [|reflexivity].
  rewrite (SyncFacts.binarySearch_timestamp repeat_timemap el
             {| measure := 0; timestamp := 950%Q |} Heq).
  vm_compute. reflexivity.
Qed.

(** The canonical record of measure 0 in the repeat scenario. *)
Lemma build_repeat_measure_0 :
  Timemap.build repeat_timemap !! 0
  = Some {| start := 0%Q; duration := 500%Q |}.
Proof. vm_compute. reflexivity. Qed.

(** C2, as the code does it.  In a player loaded with the repeat
    scenario, a tick while playing at elapsed timeline time 950 ms
    resolves, by the floor search over the raw sequence, to the second
    visit of measure 0 (never to measure 1) and sends the renderer
    measure 0 with its canonical start 0.  The measure offset is counted
    from the measure-local anchor: if the tracked measure was not 0, the
    tick re-anchors to [now] and the offset is 0; if it was 0, the anchor
    stays and the offset is [max(0, now - _measureStart)], which is
    50 ms exactly when the anchor is 50 ms old. *)
Theorem synchronizeMidi_repeat_950 (p : Player.t) (now : MillisecsTimestamp) :
  Engine.reachable repeat_timemap p ->
  Player.state p = Playing ->
  (now - Player._playbackStart p == 950)%Q ->
  exists q,
    Sync.synchronizeMidi now p = Player.Normal q /\
    Player._measureIndex q = 0 /\
    cursorIndex (Player._renderer q) = 0 /\
    cursorStart (Player._renderer q) = 0%Q /\
    cursorOffset (Player._renderer q) = Player._measureOffset q /\
    (Player._measureIndex p <> 0 ->
       Player._measureStart q = now /\ (Player._measureOffset q == 0)%Q) /\
    (Player._measureIndex p = 0 ->
       Player._measureStart q = Player._measureStart p /\
       Player._measureOffset q = Qmax 0 (now - Player._measureStart p) /\
       ((now - Player._measureStart p == 50)%Q ->
          (Player._measureOffset q == 50)%Q)).
Proof.
  intros Hreach Hplaying Helapsed.
  destruct (SyncFacts.reachable_timemap _ _ Hreach) as [Hraw Hindex].
  clear Hreach.
  destruct p as [[st pos] pS pP mI mS mO tm mu raw cur out].
  unfold Player.state in Hplaying.
  cbn [Player._midiPlayer MidiPlayer.state Player._converter_timemap
       Player._timemap Player._playbackStart Player._measureIndex
       Player._measureStart] in *.
  subst st raw tm.
  unfold Sync.synchronizeMidi, Player.state.
  cbn [Player._midiPlayer MidiPlayer.state Player._converter_timemap
       Player._playbackStart PlayerState_eqb negb].
  destruct (binarySearch_repeat_950
              {| measure := 0; timestamp := (now - pS)%Q |} Helapsed) as [-> ->].
  cbn [measure Player._measureIndex].
  destruct (Z.eqb_spec mI 0) as [->|Hnonzero];
    cbn -[Timemap.build Qmax Qminus]; rewrite build_repeat_measure_0;
    eexists; (split; [reflexivity|]); cbn -[Qmax Qminus].
  - split; [reflexivity|]. repeat (split; [reflexivity|]).
    split; [intros H; contradiction|]. intros _.
    repeat (split; [reflexivity|]).
    intros H50. rewrite Q.max_r by (rewrite H50; discriminate). exact H50.
  - repeat (split; [reflexivity|]).
    split; [|intros H; contradiction]. intros _. split; [reflexivity|].
    apply Q.max_l. apply Qle_minus_iff. ring_simplify. apply Qle_refl.
Qed.

(** A run is reachable when its events are in chronological order. *)
Lemma run_reachable timemap events :
  Engine.chronological 0%Q events ->
  Engine.reachable timemap (Engine.run events (Player.constructor timemap)).
Proof. intros H. exists events. split; [exact H|reflexivity]. Qed.

(** Frames at elapsed 500 ms and 900 ms see each measure begin; the frame
    at elapsed 950 ms then reads measure 0 at offset 50 ms. *)
Lemma synchronizeMidi_repeat_950_witness :
  let p := Engine.run [(1000%Q, Engine.Play); (1500%Q, Engine.Frame);
                       (1900%Q, Engine.Frame)]
             (Player.constructor repeat_timemap) in
  exists q,
    Sync.synchronizeMidi 1950%Q p = Player.Normal q /\
    Player._measureIndex q = 0 /\
    (Player._measureOffset q == 50)%Q.
Proof.
  intros p.
  assert (Hreach : Engine.reachable repeat_timemap p).
  { apply run_reachable. simpl. repeat split; apply Qle_bool_imp_le; reflexivity. }
  assert (Hplaying : Player.state p = Playing) by (vm_compute; reflexivity).
  assert (Helapsed : (1950 - Player._playbackStart p == 950)%Q)
    by (vm_compute; reflexivity).
  destruct (synchronizeMidi_repeat_950 p 1950%Q Hreach Hplaying Helapsed)
    as (q & Hq & Hindex & _ & _ & _ & _ & Hsame).
  exists q. split; [exact Hq|]. split; [exact Hindex|].
  apply Hsame; vm_compute; reflexivity.
Defined.

(** C2 as stated fails.  With frames at elapsed 600 ms and 950 ms the
    repeat begins between two frames: the frame at 950 ms finds measure 0
    where it tracked measure 1, re-anchors, and reads offset 0, not 50. *)
Lemma synchronizeMidi_repeat_950_offset_0 :
  let p := Engine.run [(1000%Q, Engine.Play); (1600%Q, Engine.Frame)]
             (Player.constructor repeat_timemap) in
  Engine.reachable repeat_timemap p /\
  Player.state p = Playing /\
  (1950 - Player._playbackStart p == 950)%Q /\
  exists q,
    Sync.synchronizeMidi 1950%Q p = Player.Normal q /\
    Player._measureIndex q = 0 /\
    (Player._measureOffset q == 0)%Q /\
    ~ (Player._measureOffset q == 50)%Q.
Proof.
  intros p. split.
  { apply run_reachable. simpl. repeat split; apply Qle_bool_imp_le; reflexivity. }
  split; [vm_compute; reflexivity|]. split; [vm_compute; reflexivity|].
  eexists. split; [vm_compute; reflexivity|].
  split; [reflexivity|]. split; [reflexivity|].
  intros H. vm_compute in H. discriminate H.
Qed.

(** ** Equivalent players stay equivalent *)

Module EquivFacts.
Import Player.

(** Discharge the premises of the two conditional clauses of
    [Engine.equiv] once the playback state and the sentinel test are
    known. *)
Ltac use_live_fields :=
  repeat match goal with
  | H : ?P -> _ |- _ =>
      first
        [ specialize (H ltac:(first [ left; reflexivity | right; reflexivity
                                    | split; [reflexivity|discriminate] ]))
        | clear H ]
  end.

(** Open two equivalent players into their fields. *)
Ltac open_equiv p q :=
  destruct p as [[st pos] pS pP mI mS mO tm mu raw cur out];
  destruct q as [[st' pos'] pS' pP' mI' mS' mO' tm' mu' raw' cur' out'];
  unfold Engine.equiv, play_branch, state;
  cbn [_midiPlayer MidiPlayer.state _playbackStart _playbackPause _measureIndex
       _measureStart _measureOffset _timemap mute _converter_timemap _renderer
       _output];
  intros (Hmp & HpS & Htm & Hmu & Hraw & Hcur & Hout & Hanchors & Hpause);
  injection Hmp as Hst Hpos; subst st' pos' pS' tm' mu' raw' cur' out'.

Lemma equiv_refl p : Engine.equiv p p.
Proof. unfold Engine.equiv. repeat split; reflexivity. Qed.

Lemma equiv_observe p q : Engine.equiv p q -> Engine.observe p = Engine.observe q.
Proof.
  intros (Hmp & _ & _ & _ & _ & Hcur & Hout & _).
  unfold Engine.observe, state. rewrite Hmp, Hcur, Hout. reflexivity.
Qed.

Lemma equiv_moveTo i s o now p q :
  Engine.equiv p q ->
  Engine.equiv (Engine.fields (moveTo i s o now p)) (Engine.fields (moveTo i s o now q)).
Proof.
  open_equiv p q. unfold moveTo. cbn [_timemap].
  destruct (tm !! i) as [record|]; cbn.
  - repeat (split; [reflexivity|]). split; intros _; repeat split; reflexivity.
  - repeat (split; [reflexivity|]). split; assumption.
Qed.

Lemma equiv_play now p q :
  Engine.equiv p q -> Engine.equiv (play now p) (play now q).
Proof.
  open_equiv p q. unfold play, _play, play_branch, state. cbn.
  destruct st; destruct (Qeq_bool pS 0) eqn:Hsentinel; cbn in *; use_live_fields.
  all: try (destruct Hanchors as [-> ->]).
  all: try subst pP'.
  all: repeat (split; [reflexivity|]).
  all: try (split; [intros _; split; reflexivity|]).
  all: try (intros [_ H]; congruence).
Qed.

Lemma equiv_pause now p q :
  Engine.equiv p q -> Engine.equiv (pause now p) (pause now q).
Proof.
  open_equiv p q. unfold pause, state. cbn.
  destruct st; destruct (Qeq_bool pS 0) eqn:Hsentinel; cbn in *;
    rewrite ?Hsentinel; cbn.
  all: repeat (split; [reflexivity|]).
  all: try (split; assumption).
  all: use_live_fields; split; intros _; first [assumption|reflexivity].
Qed.

Lemma equiv_rewind p q :
  Engine.equiv p q -> Engine.equiv (rewind p) (rewind q).
Proof.
  open_equiv p q. unfold rewind. cbn.
  repeat (split; [reflexivity|]).
  split; [intros [H|H]; discriminate H|intros [H _]; discriminate H].
Qed.

Lemma equiv_synchronizeMidi now p q :
  Engine.equiv p q ->
  Engine.equiv (Engine.fields (Sync.synchronizeMidi now p))
               (Engine.fields (Sync.synchronizeMidi now q)).
Proof.
  open_equiv p q. unfold Sync.synchronizeMidi, state.
  cbn [_midiPlayer MidiPlayer.state _converter_timemap _playbackStart].
  destruct st; cbn [PlayerState_eqb negb Engine.fields].
  1, 3: repeat (split; [reflexivity|]); split; assumption.
  use_live_fields. destruct Hanchors as [-> ->].
  set (index := Helpers.binarySearch raw _ Sync.comparator). clearbody index.
  destruct (raw !! Z.to_nat (Sync.floor_index index)) as [entry|];
    cbn [Engine.fields].
  2: { cbn. repeat (split; [reflexivity|]).
       split; [intros _; split; reflexivity|intros [_ H]; congruence]. }
  cbn [_measureIndex].
  destruct (negb (mI' =? measure entry));
    cbn [set_measureStart set_measureIndex set_measureOffset _midiPlayer
         _playbackStart _playbackPause _measureIndex _measureStart
         _measureOffset _timemap mute _converter_timemap _renderer _output];
    match goal with
    | |- context [match ?o with Some _ => _ | None => _ end] => destruct o
    end; cbn;
    repeat (split; [reflexivity|]);
    (split; [intros _; split; reflexivity|intros [_ H]; congruence]).
Qed.

Lemma equiv_playbackEnded p q :
  Engine.equiv p q -> Engine.equiv (Engine.playbackEnded p) (Engine.playbackEnded q).
Proof.
  open_equiv p q. unfold Engine.playbackEnded, _play_settled, state. cbn.
  destruct st; cbn.
  1, 3: repeat (split; [reflexivity|]); split; assumption.
  repeat (split; [reflexivity|]).
  split; [intros [H|H]; discriminate H|intros [H _]; discriminate H].
Qed.

Lemma equiv_step now ev p q :
  Engine.equiv p q -> Engine.equiv (Engine.step now ev p) (Engine.step now ev q).
Proof.
  intros H. destruct ev as [i s o| | | | | |vector]; cbn [Engine.step].
  - apply equiv_moveTo, H.
  - apply equiv_play, H.
  - apply equiv_pause, H.
  - apply equiv_rewind, H.
  - apply equiv_synchronizeMidi, H.
  - apply equiv_playbackEnded, H.
  - unfold Timingsrc._handleTimingsrcChange.
    destruct vector as [v|]; [|apply equiv_play, H].
    destruct (Qeq_bool (TimingObject.velocity v) 0); [|apply equiv_play, H].
    destruct (Qeq_bool (TimingObject.position v) 0); [apply equiv_rewind|apply equiv_pause];
      exact H.
Qed.

(** Equivalent players cannot be told apart by any run. *)
Lemma equiv_run events : forall p q,
  Engine.equiv p q ->
  Engine.equiv (Engine.run events p) (Engine.run events q).
Proof.
  induction events as [|[now ev] events IH]; intros p q H; simpl; [exact H|].
  apply IH, equiv_step, H.
Qed.

End EquivFacts.

(** The never-started player of [Engine.as_never_started] has the
    engine's own fields as the constructor sets them; only what the
    collaborators hold (the stream position asked of the MIDI player,
    the mute flag, the messages the sink received) is carried over. *)
Lemma as_never_started_constructor (timemap : list MeasureTimemapEntry)
    (p : Player.t) :
  Engine.reachable timemap p ->
  let fresh := Player.constructor timemap in
  let q := Engine.as_never_started p in
  Player.state q = Player.state fresh /\
  Player._playbackStart q = Player._playbackStart fresh /\
  Player._playbackPause q = Player._playbackPause fresh /\
  Player._measureIndex q = Player._measureIndex fresh /\
  Player._measureStart q = Player._measureStart fresh /\
  Player._measureOffset q = Player._measureOffset fresh /\
  Player._timemap q = Player._timemap fresh /\
  Player._converter_timemap q = Player._converter_timemap fresh /\
  Player._renderer q = Player._renderer fresh /\
  Engine.as_never_started fresh = fresh.
Proof.
  intros Hreach fresh q.
  destruct (SyncFacts.reachable_timemap _ _ Hreach) as [Hraw Hindex].
  subst fresh q. simpl. rewrite Hraw, Hindex. repeat split; reflexivity.
Qed.

(** C4.  After [rewind()], whatever the playback state was: the cursor
    is at measure 0, start 0, offset 0; the engine is stopped with the
    global anchor at its zero sentinel, which is the never-started
    condition, so the next [play()] starts afresh; and the engine is
    equivalent to the never-started player around the same
    collaborators: no run of events tells the two apart. *)
Theorem rewind_never_started (p : Player.t) :
  let q := Player.rewind p in
  Player.position q = (0, 0%Q, 0%Q) /\
  Player.state q = Stopped /\
  Player._playbackStart q = 0%Q /\
  Engine.never_started q /\
  Player.play_branch q = Player.FreshStart /\
  Engine.equiv q (Engine.as_never_started p) /\
  (forall events,
     Engine.observe (Engine.run events q)
     = Engine.observe (Engine.run events (Engine.as_never_started p))).
Proof.
  intros q. subst q.
  assert (Hequiv : Engine.equiv (Player.rewind p) (Engine.as_never_started p)).
  { unfold Engine.equiv, Player.rewind, Engine.as_never_started,
      Player.play_branch, Player.state. cbn.
    repeat (split; [reflexivity|]).
    split; [intros [H|H]; discriminate H|intros [H _]; discriminate H]. }
  repeat (split; [reflexivity|]).
  split; [split; reflexivity|]. split; [reflexivity|].
  split; [exact Hequiv|].
  intros events. apply EquivFacts.equiv_observe, EquivFacts.equiv_run, Hequiv.
Qed.

(** ** The tick never fails on a sorted, non-empty timemap *)

(** While playing, a tick over a sorted, non-empty timemap completes
    normally: it tracks the measure of the floor entry and sends the
    renderer that measure with its canonical start and duration. *)
Lemma synchronizeMidi_tracks_floor (timemap : list MeasureTimemapEntry)
    (p : Player.t) (now : MillisecsTimestamp) :
  Engine.reachable timemap p ->
  Sync.sorted_by_timestamp timemap -> timemap <> [] ->
  Player.state p = Playing ->
  let el := {| measure := 0; timestamp := (now - Player._playbackStart p)%Q |} in
  let f := Z.to_nat (Sync.floor_index
                       (Helpers.binarySearch timemap el Sync.comparator)) in
  exists e record q,
    timemap !! f = Some e /\
    Timemap.build timemap !! measure e = Some record /\
    Sync.synchronizeMidi now p = Player.Normal q /\
    Player._measureIndex q = measure e /\
    Player._renderer q =
      {| cursorIndex := measure e; cursorStart := start record;
         cursorOffset := Player._measureOffset q;
         cursorDuration := Some (duration record) |}.
Proof.
  intros Hreach Hsorted Hne Hplaying el f.
  destruct (SyncFacts.reachable_timemap _ _ Hreach) as [Hraw Hindex].
  destruct (FloorFacts.floor_entry timemap el Hsorted Hne) as (e & He & _).
  fold f in He.
  destruct (Timemap.build timemap !! measure e) as [record|] eqn:Hrecord.
  2: { exfalso.
       apply (proj1 (build_lookup_None timemap (measure e)) Hrecord e); [|reflexivity].
       apply list_elem_of_lookup. exists f. exact He. }
  exists e, record.
  destruct p as [[st pos] pS pP mI mS mO tm mu raw cur out].
  unfold Player.state in Hplaying.
  cbn [Player._midiPlayer MidiPlayer.state Player._converter_timemap
       Player._timemap Player._playbackStart] in *.
  subst st raw tm.
  unfold Sync.synchronizeMidi, Player.state.
  cbn [Player._midiPlayer MidiPlayer.state Player._converter_timemap
       Player._playbackStart PlayerState_eqb negb].
  fold el. fold f. rewrite He. cbn [Player._measureIndex].
  destruct (Z.eqb_spec mI (measure e)) as [->|Hchange];
    cbn -[Timemap.build Qmax Qminus]; rewrite Hrecord;
    eexists; repeat (split; [reflexivity|]); reflexivity.
Qed.

(** * Further properties of the code *)

(** ** The timemap index on sorted input *)

Lemma first_record_Some timemap m l : forall i r,
  Timemap.first_record timemap m i l = Some r ->
  exists k e,
    l !! k = Some e /\ measure e = m /\
    (forall j e', (j < k)%nat -> l !! j = Some e' -> measure e' <> m) /\
    r = Timemap.record_of timemap e (i + k).
Proof.
  induction l as [|x l IH]; intros i r Hr; simpl in Hr; [discriminate|].
  destruct (decide (measure x = m)) as [Hx|Hx].
  - injection Hr as <-. exists 0%nat, x. split; [reflexivity|].
    split; [exact Hx|]. split; [intros j e' Hj; lia|].
    rewrite Nat.add_0_r. reflexivity.
  - destruct (IH (S i) r Hr) as (k & e & Hk & Hm & Hfirst & ->).
    exists (S k), e. split; [exact Hk|]. split; [exact Hm|]. split.
    + intros [|j] e' Hj He'.
      * injection He' as <-. exact Hx.
      * apply (Hfirst j e'); [lia|exact He'].
    + f_equal. lia.
Qed.

(** On a timemap sorted by timestamp, the record of a measure starts at
    the earliest visit of the measure, no visit of it is earlier, and its
    duration is not negative. *)
Theorem build_sorted_record (raw : list MeasureTimemapEntry) (m : MeasureIndex)
    (record : MeasureRecord) :
  Sync.sorted_by_timestamp raw ->
  Timemap.build raw !! m = Some record ->
  (exists e, e ∈ raw /\ measure e = m /\ start record = timestamp e) /\
  (forall e, e ∈ raw -> measure e = m -> (start record <= timestamp e)%Q) /\
  (0 <= duration record)%Q.
Proof.
  intros Hsorted Hrecord. rewrite TimemapFacts.build_lookup in Hrecord.
  destruct (first_record_Some raw m raw 0 record Hrecord)
    as (k & e & Hk & Hm & Hfirst & ->).
  simpl Nat.add. split; [|split].
  - exists e. split; [apply list_elem_of_lookup; exists k; exact Hk|].
    split; [exact Hm|reflexivity].
  - intros e' He' Hm'. apply list_elem_of_lookup in He' as [j Hj]. simpl.
    destruct (Nat.le_gt_cases k j) as [Hle|Hlt].
    + exact (Hsorted k j e e' Hle Hk Hj).
    + exfalso. exact (Hfirst j e' Hlt Hj Hm').
  - rewrite (TimemapFacts.record_of_duration raw e k Hk).
    destruct (raw !! S k) as [next|] eqn:Hnext; [|apply Qle_refl].
    pose proof (Hsorted k (S k) e next ltac:(lia) Hk Hnext). lra.
Qed.

Lemma repeat_timemap_sorted : Sync.sorted_by_timestamp repeat_timemap.
Proof.
  intros j k x y Hjk Hx Hy.
  destruct j as [|[|[|[|j]]]]; try discriminate Hx;
    destruct k as [|[|[|[|k]]]]; try discriminate Hy; try lia;
    injection Hx as <-; injection Hy as <-; simpl; discriminate.
Qed.

Lemma build_sorted_record_witness :
  (0 <= duration {| start := 0%Q; duration := 500%Q |})%Q.
Proof.
  exact (proj2 (proj2 (build_sorted_record repeat_timemap 0
           {| start := 0%Q; duration := 500%Q |}
           repeat_timemap_sorted ltac:(vm_compute; reflexivity)))).
Defined.

(** ** Seeking *)

(** In a loaded player, [moveTo] throws, writing nothing, exactly for the
    measures the raw timemap never visits; for a visited measure it
    completes and tracks that measure. *)
Theorem moveTo_throws_iff_unvisited (timemap : list MeasureTimemapEntry)
    (p : Player.t) (i : MeasureIndex) (s o now : MillisecsTimestamp) :
  Engine.reachable timemap p ->
  (Player.moveTo i s o now p = Player.Throw p <->
     forall e, e ∈ timemap -> measure e <> i) /\
  ((exists e, e ∈ timemap /\ measure e = i) ->
     exists q, Player.moveTo i s o now p = Player.Normal q /\
               Player._measureIndex q = i).
Proof.
  intros Hreach.
  destruct (SyncFacts.reachable_timemap _ _ Hreach) as [_ Hindex].
  unfold Player.moveTo. rewrite Hindex.
  destruct (Timemap.build timemap !! i) as [record|] eqn:Hrecord.
  - split.
    + split; [discriminate|]. intros Hnone.
      apply (build_lookup_None timemap i) in Hnone. congruence.
    + intros _. eexists. split; reflexivity.
  - pose proof (proj1 (build_lookup_None timemap i) Hrecord) as Hnone.
    split.
    + split; [intros _; exact Hnone|reflexivity].
    + intros (e & He & Hm). exfalso. exact (Hnone e He Hm).
Qed.

Lemma moveTo_throws_iff_unvisited_witness :
  Player.moveTo 3 0%Q 0%Q 50%Q (Player.constructor repeat_timemap)
  = Player.Throw (Player.constructor repeat_timemap).
Proof.
  apply (proj1 (moveTo_throws_iff_unvisited repeat_timemap
                  (Player.constructor repeat_timemap) 3 0%Q 0%Q 50%Q
                  (run_reachable repeat_timemap [] I))).
  intros e He.
  repeat (apply elem_of_cons in He as [->|He]; [simpl; lia|]).
  inversion He.
Defined.

(** A seek while the engine is not playing, followed by [play()] after
    any delay, resumes at the target of the seek: at the instant of the
    resume the elapsed timeline time is [start + o] and the measure offset
    is [o], in measure [i].  This needs the resume branch: the engine is
    paused, or the seek did not put the global anchor on its zero
    sentinel. *)
Theorem moveTo_then_play (p : Player.t) (i : MeasureIndex)
    (s o now1 now2 : MillisecsTimestamp) (record : MeasureRecord) :
  Player.state p <> Playing ->
  Player._timemap p !! i = Some record ->
  Player.state p = Paused \/ ~ (now1 - (start record + o) == 0)%Q ->
  exists q,
    Player.moveTo i s o now1 p = Player.Normal q /\
    let r := Player.play now2 q in
    Player.state r = Playing /\
    Player._measureIndex r = i /\
    (now2 - Player._playbackStart r == start record + o)%Q /\
    (now2 - Player._measureStart r == o)%Q.
Proof.
  intros Hstate Hrecord Hresume. unfold Player.moveTo. rewrite Hrecord.
  eexists. split; [reflexivity|].
  destruct p as [[st pos] pS pP mI mS mO tm mu raw cur out].
  unfold Player.state in *. simpl in Hstate, Hresume.
  unfold Player.play, Player._play, Player.play_branch, Player.state. simpl.
  destruct st; try contradiction; simpl.
  - destruct Hresume as [H|H]; [discriminate|].
    apply Qeq_bool_false_iff in H. rewrite H. simpl.
    split; [reflexivity|]. split; [reflexivity|]. split; ring.
  - split; [reflexivity|]. split; [reflexivity|]. split; ring.
Qed.

Lemma moveTo_then_play_witness :
  exists q,
    Player.moveTo 1 500%Q 10%Q 1000%Q (Player.constructor repeat_timemap)
      = Player.Normal q /\
    (3000 - Player._playbackStart (Player.play 3000%Q q) == 500 + 10)%Q.
Proof.
  destruct (moveTo_then_play (Player.constructor repeat_timemap) 1 500%Q 10%Q
              1000%Q 3000%Q {| start := 500%Q; duration := 400%Q |}
              ltac:(discriminate) ltac:(vm_compute; reflexivity)
              ltac:(right; intros H; discriminate H))
    as (q & Hq & _ & _ & Helapsed & _).
  exists q. split; [exact Hq|exact Helapsed].
Defined.

(** ** The tick *)

(** A tick never moves the global anchor or the pause instant and never
    touches the MIDI player, the sink or the mute flag; when the engine is
    not playing it changes nothing at all.  A tick that completes while
    playing leaves a measure offset that is not negative, puts the cursor
    on the tracked measure at its canonical start with that offset, and
    moves the measure-local anchor (to [now]) only if the tracked measure
    changed. *)
Theorem synchronizeMidi_frame (now : MillisecsTimestamp) (p : Player.t) :
  let q := Engine.fields (Sync.synchronizeMidi now p) in
  Player._playbackStart q = Player._playbackStart p /\
  Player._playbackPause q = Player._playbackPause p /\
  Player._midiPlayer q = Player._midiPlayer p /\
  Player._output q = Player._output p /\
  Player.mute q = Player.mute p /\
  (Player.state p <> Playing -> Sync.synchronizeMidi now p = Player.Normal p) /\
  (forall q', Sync.synchronizeMidi now p = Player.Normal q' ->
     Player.state p = Playing ->
     (0 <= Player._measureOffset q')%Q /\
     cursorIndex (Player._renderer q') = Player._measureIndex q' /\
     cursorOffset (Player._renderer q') = Player._measureOffset q' /\
     Some (cursorStart (Player._renderer q'))
       = start <$> Player._timemap p !! Player._measureIndex q' /\
     (Player._measureIndex q' = Player._measureIndex p ->
        Player._measureStart q' = Player._measureStart p) /\
     (Player._measureIndex q' <> Player._measureIndex p ->
        Player._measureStart q' = now /\ (Player._measureOffset q' == 0)%Q)).
Proof.
  destruct p as [[st pos] pS pP mI mS mO tm mu raw cur out].
  unfold Sync.synchronizeMidi, Player.state.
  cbn [Player._midiPlayer MidiPlayer.state Player._converter_timemap
       Player._playbackStart].
  destruct st; cbn [PlayerState_eqb negb].
  1, 3: cbn; repeat (split; [reflexivity|]); intros q' _ H; discriminate H.
  set (index := Helpers.binarySearch raw _ Sync.comparator). clearbody index.
  destruct (raw !! Z.to_nat (Sync.floor_index index)) as [entry|].
  2: { cbn. repeat (split; [reflexivity|]).
       split; [intros H; contradiction|]. intros q' H; discriminate H. }
  cbn [Player._measureIndex].
  destruct (Z.eqb_spec mI (measure entry)) as [Hsame|Hchanged];
    cbn -[Qmax Qminus];
    match goal with
    | |- context [match ?o with Some _ => _ | None => _ end] =>
        destruct o as [record|] eqn:Hrecord
    end; cbn -[Qmax Qminus];
    repeat (split; [reflexivity|]);
    (split; [intros H; contradiction|]);
    intros q' Hq' _; try discriminate Hq';
    injection Hq' as <-; cbn -[Qmax Qminus].
  - split; [apply Q.le_max_l|]. repeat (split; [reflexivity|]).
    split; [cbn in Hrecord; rewrite Hrecord; reflexivity|].
    split; [reflexivity|]. intros H. contradiction.
  - split; [apply Q.le_max_l|]. repeat (split; [reflexivity|]).
    split; [cbn in Hrecord; rewrite Hrecord; reflexivity|].
    split; [intros H; congruence|]. intros _. split; [reflexivity|].
    apply Q.max_l. apply Qle_minus_iff. ring_simplify. apply Qle_refl.
Qed.

Lemma synchronizeMidi_frame_witness :
  let p := Player.play 1000%Q (Player.constructor repeat_timemap) in
  exists q', Sync.synchronizeMidi 1600%Q p = Player.Normal q' /\
             Player._measureStart q' = 1600%Q.
Proof.
  intros p. eexists. split; [vm_compute; reflexivity|].
  refine (proj1 (proj2 (proj2 (proj2 (proj2 (proj2
    (proj2 (proj2 (proj2 (proj2 (proj2 (proj2
      (synchronizeMidi_frame 1600%Q p)))))) _ _ eq_refl))))) _)).
  - vm_compute. reflexivity.
  - vm_compute. discriminate.
Defined.

(** ** Notes from begin to end *)

Module ScheduleFacts.
Import SoundFontOutput.


End ScheduleFacts.


